(** * EmailGetList: the "Get Many" operation of the IMAP node

    A shallow embedding of
    [nodes/Imap/operations/email/functions/EmailGetList.ts]:
    the body-structure walker [getEmailPartsInfoRecursive], the stream
    reader [streamToString] and the listing action [executeImapAction],
    followed by the properties established about them. *)

From Stdlib Require Import List String Bool Arith ZArith NArith Lia.
From Stdlib Require Import DecimalString.
Import ListNotations.

Open Scope string_scope.
Open Scope list_scope.

Set Implicit Arguments.
Set Warnings "-register-all".

(* ===================================================================== *)
(** * Data model *)
(* ===================================================================== *)

(** The [includeParts] options (the TypeScript enum [EmailParts]); each
    member is the string stored in the node parameter. *)
Module EmailParts.
Definition BodyStructure : string := "bodyStructure".
Definition Flags : string := "flags".
Definition Size : string := "size".
Definition AttachmentsInfo : string := "attachmentsInfo".
Definition TextContent : string := "textContent".
Definition HtmlContent : string := "htmlContent".
End EmailParts.

(** A node of the body structure as the walker reads it.  The source
    handles it as [any]: every key may be missing, and [None] stands for
    a missing key.  [childNodes] is [Some] as soon as the array exists,
    also when it is empty (an array is truthy in JavaScript whatever its
    length).  [dispositionFilename] is
    [dispositionParameters?.filename]. *)
Inductive BodyStructureNode : Type :=
  MkNode {
    part : option string;
    type : option string;
    encoding : option string;
    size : option Z;
    disposition : option string;
    dispositionFilename : option string;
    childNodes : option (list BodyStructureNode)
  }.

(** The interface [EmailPartInfo].  [partId], [type] and [encoding] are
    copied from an untyped node and are [None] when the key was
    missing there. *)
Record EmailPartInfo : Type :=
  MkPartInfo {
    pi_partId : option string;
    pi_filename : option string;
    pi_type : option string;
    pi_encoding : option string;
    pi_size : Z;
    pi_disposition : option string
  }.

(** [x === 'literal'] on a possibly missing string. *)
Definition strict_eq (x : option string) (lit : string) : bool :=
  match x with
  | Some s => String.eqb s lit
  | None => false
  end.

(** Truthiness of a part id: [null], [undefined] and the empty string
    are falsy. *)
Definition truthy (x : option string) : bool :=
  match x with
  | Some s => negb (String.eqb s EmptyString)
  | None => false
  end.

(* ===================================================================== *)
(** * The structure walker *)
(* ===================================================================== *)

(** Lines 48-59: the descriptor built for a child node that carries a
    [size] key. *)
Definition partInfoOf (childNode : BodyStructureNode) (sz : Z) : EmailPartInfo :=
  let partInfo :=
    {| pi_partId := part childNode;
       pi_filename := None;
       pi_type := type childNode;
       pi_encoding := encoding childNode;
       pi_size := sz;
       pi_disposition := None |} in
  match disposition childNode with
  | Some d =>
      {| pi_partId := pi_partId partInfo;
         pi_filename :=
           if String.eqb d "attachment" then dispositionFilename childNode
           else None;
         pi_type := pi_type partInfo;
         pi_encoding := pi_encoding partInfo;
         pi_size := pi_size partInfo;
         pi_disposition := Some d |}
  | None => partInfo
  end.

(** What one loop iteration pushes for [childNode] (lines 47-61). *)
Definition pushed (childNode : BodyStructureNode) : list EmailPartInfo :=
  match size childNode with
  | Some sz => [partInfoOf childNode sz]
  | None => []
  end.

(** [getEmailPartsInfoRecursive] (lines 41-71).  The [context] argument
    is only passed along and is left out.  The inner [loop] is the
    [for ... of] over [bodyStructure.childNodes] with the accumulator
    [partsInfo]. *)
Fixpoint getEmailPartsInfoRecursive (bodyStructure : BodyStructureNode)
  : list EmailPartInfo :=
  let partsInfo : list EmailPartInfo := [] in
  match bodyStructure with
  | MkNode _ _ _ _ _ _ (Some children) =>
      (fix loop (rest : list BodyStructureNode)
                (partsInfo : list EmailPartInfo) {struct rest}
         : list EmailPartInfo :=
         match rest with
         | [] => partsInfo
         | childNode :: rest' =>
             let partsInfo := partsInfo ++ pushed childNode in
             let partsInfo :=
               match childNode with
               | MkNode _ _ _ _ _ _ (Some _) =>
                   partsInfo ++ getEmailPartsInfoRecursive childNode
               | MkNode _ _ _ _ _ _ None => partsInfo
               end in
             loop rest' partsInfo
         end) children partsInfo
  | MkNode _ _ _ _ _ _ None => partsInfo
  end.

(** ** Traversals used to state the walker's properties *)

(** The nodes strictly below [n], in pre-order: each child, followed by
    everything below it, children taken in the order of the array. *)
Fixpoint descendants (n : BodyStructureNode) : list BodyStructureNode :=
  match n with
  | MkNode _ _ _ _ _ _ (Some children) =>
      (fix go (l : list BodyStructureNode) : list BodyStructureNode :=
         match l with
         | [] => []
         | c :: l' => (c :: descendants c) ++ go l'
         end) children
  | MkNode _ _ _ _ _ _ None => []
  end.

(** Pre-order, depth-first listing of all the nodes of a tree. *)
Definition preorder (n : BodyStructureNode) : list BodyStructureNode :=
  n :: descendants n.

Definition has_size (n : BodyStructureNode) : bool :=
  match size n with Some _ => true | None => false end.

(** A node has children when its [childNodes] array holds at least one
    node. *)
Definition has_children (n : BodyStructureNode) : bool :=
  match childNodes n with
  | Some (_ :: _) => true
  | _ => false
  end.

(** The leaves the specification counts: no children and a size. *)
Definition sized_leaf (n : BodyStructureNode) : bool :=
  negb (has_children n) && has_size n.

(** The data-model invariant on a list of nodes: a node with children
    carries no size. *)
Definition containers_unsized (l : list BodyStructureNode) : Prop :=
  forall n, In n l -> has_children n = true -> size n = None.

(** The contribution of a list of children: what each child pushes,
    followed by the walk below it. *)
Definition walk_children (cs : list BodyStructureNode) : list EmailPartInfo :=
  flat_map (fun c => pushed c ++ getEmailPartsInfoRecursive c) cs.

(* ===================================================================== *)
(** * Classification of the parts of one message *)
(* ===================================================================== *)

(** An entry of [attachmentsInfo] (lines 190-196). *)
Record AttachmentInfo : Type :=
  MkAttachment {
    at_partId : option string;
    at_filename : option string;
    at_type : option string;
    at_encoding : option string;
    at_size : Z
  }.

(** The three loop variables [textPartId], [htmlPartId] and
    [attachmentsInfo] (lines 174-176).  For the part ids [None] is
    [null] (or an [undefined] copied from a node without a [part]
    key); both are falsy and the code tells them apart nowhere. *)
Record Analysis : Type :=
  MkAnalysis {
    textPartId : option string;
    htmlPartId : option string;
    attachmentsInfo : list AttachmentInfo
  }.

Definition noAnalysis : Analysis :=
  {| textPartId := None; htmlPartId := None; attachmentsInfo := [] |}.

Definition attachmentOf (partInfo : EmailPartInfo) : AttachmentInfo :=
  {| at_partId := pi_partId partInfo;
     at_filename := pi_filename partInfo;
     at_type := pi_type partInfo;
     at_encoding := pi_encoding partInfo;
     at_size := pi_size partInfo |}.

(** The body of the loop over [partsInfo] (lines 189-204). *)
Definition classifyPart (st : Analysis) (partInfo : EmailPartInfo) : Analysis :=
  if strict_eq (pi_disposition partInfo) "attachment" then
    {| textPartId := textPartId st;
       htmlPartId := htmlPartId st;
       attachmentsInfo := attachmentsInfo st ++ [attachmentOf partInfo] |}
  else
    let st :=
      if strict_eq (pi_type partInfo) "text/plain" then
        {| textPartId := pi_partId partInfo;
           htmlPartId := htmlPartId st;
           attachmentsInfo := attachmentsInfo st |}
      else st in
    let st :=
      if strict_eq (pi_type partInfo) "text/html" then
        {| textPartId := textPartId st;
           htmlPartId := pi_partId partInfo;
           attachmentsInfo := attachmentsInfo st |}
      else st in
    st.

(** The single-part branch (lines 207-213). *)
Definition classifySinglePart (bodyStructure : BodyStructureNode) : Analysis :=
  let st := noAnalysis in
  let st :=
    if strict_eq (type bodyStructure) "text/plain" then
      {| textPartId := Some "TEXT";
         htmlPartId := htmlPartId st;
         attachmentsInfo := attachmentsInfo st |}
    else st in
  let st :=
    if strict_eq (type bodyStructure) "text/html" then
      {| textPartId := textPartId st;
         htmlPartId := Some "TEXT";
         attachmentsInfo := attachmentsInfo st |}
    else st in
  st.

(** Lines 183-215: what is done with a body structure that is there. *)
Definition classify (bodyStructure : BodyStructureNode) : Analysis :=
  match childNodes bodyStructure with
  | Some _ =>
      let partsInfo := getEmailPartsInfoRecursive bodyStructure in
      fold_left classifyPart partsInfo noAnalysis
  | None => classifySinglePart bodyStructure
  end.

(** Lines 174-216, for one message. *)
Definition analyze (analyzeBodyStructure : bool)
    (bodyStructure : option BodyStructureNode) : Analysis :=
  if analyzeBodyStructure then
    match bodyStructure with
    | Some bs => classify bs
    | None => noAnalysis
    end
  else noAnalysis.

(** ** The classification in the words of the specification *)

Definition is_attachment (p : EmailPartInfo) : bool :=
  strict_eq (pi_disposition p) "attachment".

(** The last element of a list that passes a test. *)
Fixpoint last_such (A : Type) (test : A -> bool) (l : list A) : option A :=
  match l with
  | [] => None
  | x :: l' =>
      match last_such test l' with
      | Some y => Some y
      | None => if test x then Some x else None
      end
  end.

(** The part id a mime type ends up with: that of the last leaf of this
    type that is not an attachment, if there is one. *)
Definition partIdFor (mime : string) (leaves : list EmailPartInfo)
  : option string :=
  match last_such (fun p => negb (is_attachment p) && strict_eq (pi_type p) mime)
                  leaves with
  | Some p => pi_partId p
  | None => None
  end.

Definition classify_spec (leaves : list EmailPartInfo) : Analysis :=
  {| textPartId := partIdFor "text/plain" leaves;
     htmlPartId := partIdFor "text/html" leaves;
     attachmentsInfo := map attachmentOf (filter is_attachment leaves) |}.

(** The state after the loop, from any starting state: a part id is
    replaced by that of the last matching leaf when there is one, and
    the attachments are appended in order. *)
Definition after_loop (st : Analysis) (leaves : list EmailPartInfo)
  : Analysis :=
  {| textPartId :=
       match last_such (fun p => negb (is_attachment p)
                                 && strict_eq (pi_type p) "text/plain")
                       leaves with
       | Some p => pi_partId p
       | None => textPartId st
       end;
     htmlPartId :=
       match last_such (fun p => negb (is_attachment p)
                                 && strict_eq (pi_type p) "text/html")
                       leaves with
       | Some p => pi_partId p
       | None => htmlPartId st
       end;
     attachmentsInfo :=
       attachmentsInfo st ++ map attachmentOf (filter is_attachment leaves) |}.

(* ===================================================================== *)
(** * Reading a part: [streamToString] *)
(* ===================================================================== *)

(** Decoded text, as the sequence of its code points. *)
Definition text : Type := list N.

(** The replacement character U+FFFD. *)
Definition REPLACEMENT : N := 65533%N.

(** ** [Buffer.prototype.toString('utf8')]

    This is Node's function, not the repository's.  Node decodes
    leniently: it never throws, and every ill-formed byte sequence
    comes out as U+FFFD.  The decoder below is the UTF-8 decoder of the
    Encoding Standard, which Node follows: [utf8_scan] yields one entry
    per code point, [None] where the bytes were ill-formed. *)

Record Utf8Pending : Type :=
  MkPending {
    u_needed : nat;   (* continuation bytes still expected, at least 1 *)
    u_codepoint : N;  (* bits gathered so far *)
    u_lower : N;      (* accepted range of the next byte *)
    u_upper : N
  }.

Definition in_range (lo hi b : N) : bool := (N.leb lo b && N.leb b hi)%N.

(** A byte met while no sequence is open. *)
Definition utf8_lead (b : N) : list (option N) * option Utf8Pending :=
  if in_range 0 127 b then ([Some b], None)
  else if in_range 194 223 b then
    ([], Some (MkPending 1 (N.land b 31) 128 191))
  else if in_range 224 239 b then
    ([], Some (MkPending 2 (N.land b 15)
                 (if N.eqb b 224 then 160 else 128)
                 (if N.eqb b 237 then 159 else 191))%N)
  else if in_range 240 244 b then
    ([], Some (MkPending 3 (N.land b 7)
                 (if N.eqb b 240 then 144 else 128)
                 (if N.eqb b 244 then 143 else 191))%N)
  else ([None], None).

Fixpoint utf8_scan (st : option Utf8Pending) (bytes : list Byte.byte)
  : list (option N) :=
  match bytes with
  | [] =>
      match st with
      | Some _ => [None]
      | None => []
      end
  | byte :: rest =>
      let b := Byte.to_N byte in
      match st with
      | None =>
          let (out, st') := utf8_lead b in out ++ utf8_scan st' rest
      | Some p =>
          if in_range (u_lower p) (u_upper p) b then
            let cp := N.lor (N.shiftl (u_codepoint p) 6) (N.land b 63) in
            match u_needed p with
            | S (S k) => utf8_scan (Some (MkPending (S k) cp 128 191)) rest
            | _ => Some cp :: utf8_scan None rest
            end
          else
            (* the open sequence is dropped and the byte is read again *)
            let (out, st') := utf8_lead b in
            None :: out ++ utf8_scan st' rest
      end
  end.

(** The bytes are well-formed UTF-8 when scanning them meets no
    ill-formed sequence. *)
Definition utf8_valid (bytes : list Byte.byte) : bool :=
  forallb (fun o => match o with Some _ => true | None => false end)
          (utf8_scan None bytes).

Definition toString_utf8 (bytes : list Byte.byte) : text :=
  map (fun o => match o with Some cp => cp | None => REPLACEMENT end)
      (utf8_scan None bytes).

(** ** The stream and the promise *)

Definition Error : Type := string.

(** How a promise turns out.  [Pending]: it is never settled. *)
Inductive Settled (A : Type) : Type :=
| Resolved (a : A)
| Rejected (e : Error)
| Pending.
Arguments Resolved {A} a.
Arguments Rejected {A} e.
Arguments Pending {A}.

(** A [Readable] is what it emits, in order. *)
Inductive StreamEvent : Type :=
| OnData (chunk : list Byte.byte)
| OnEnd
| OnError (e : Error).

Definition Readable : Type := list StreamEvent.

(** The three handlers of [streamToString] (lines 30-36) run over the
    events; [chunks] is the array they share.  The promise is settled
    by the first ['end'] or ['error']; when the events stop before
    that, it is never settled. *)
Fixpoint streamToString_from (chunks : list (list Byte.byte))
    (stream : Readable) : Settled text :=
  match stream with
  | [] => Pending
  | OnData chunk :: stream' => streamToString_from (chunks ++ [chunk]) stream'
  | OnEnd :: _ => Resolved (toString_utf8 (List.concat chunks))
  | OnError e :: _ => Rejected e
  end.

Definition streamToString (stream : Readable) : Settled text :=
  streamToString_from [] stream.

(* ===================================================================== *)
(** * The listing action: [executeImapAction] *)
(* ===================================================================== *)

(** imapflow's [FetchQueryObject], with the five keys this operation
    sets; [false] is a key that was not set. *)
Record FetchQueryObject : Type :=
  MkFetchQuery {
    fq_uid : bool;
    fq_envelope : bool;
    fq_bodyStructure : bool;
    fq_flags : bool;
    fq_size : bool
  }.

(** A fetched message, with the two fields the loop reads; [others]
    stands for everything else the server sent (envelope, flags, size),
    which is only copied into the output. *)
Record FetchMessageObject : Type :=
  MkMessage {
    uid : Z;
    bodyStructure : option BodyStructureNode;
    others : string
  }.

(** [item_json]: the JSON copy of the message and the three keys the
    loop may add to it.  [None] is a key that was not added.  Of the
    copy [json], the [uid] and the [bodyStructure] are those of the
    message (numbers, strings and plain objects come back from JSON as
    they went in); [others] merely stands for whatever the copy holds
    of the remaining fields, which JSON may alter (a Set of flags, a
    Date), and nothing is stated about it. *)
Record OutputRecord : Type :=
  MkOutput {
    json : FetchMessageObject;
    out_attachmentsInfo : option (list AttachmentInfo);
    out_textContent : option text;
    out_htmlContent : option text
  }.

(** The search object is built elsewhere and only handed to [fetch]. *)
Definition SearchObject : Type := string.

(** [includeParts.includes(p)]. *)
Definition includes (includeParts : list string) (p : string) : bool :=
  existsb (String.eqb p) includeParts.

(** Lines 131-156. *)
Definition buildFetchQuery (includeParts : list string) : FetchQueryObject :=
  let fetchQuery :=
    {| fq_uid := true; fq_envelope := true;
       fq_bodyStructure := false; fq_flags := false; fq_size := false |} in
  let fetchQuery :=
    if includes includeParts EmailParts.BodyStructure then
      {| fq_uid := fq_uid fetchQuery; fq_envelope := fq_envelope fetchQuery;
         fq_bodyStructure := true;
         fq_flags := fq_flags fetchQuery; fq_size := fq_size fetchQuery |}
    else fetchQuery in
  let fetchQuery :=
    if includes includeParts EmailParts.Flags then
      {| fq_uid := fq_uid fetchQuery; fq_envelope := fq_envelope fetchQuery;
         fq_bodyStructure := fq_bodyStructure fetchQuery;
         fq_flags := true; fq_size := fq_size fetchQuery |}
    else fetchQuery in
  let fetchQuery :=
    if includes includeParts EmailParts.Size then
      {| fq_uid := fq_uid fetchQuery; fq_envelope := fq_envelope fetchQuery;
         fq_bodyStructure := fq_bodyStructure fetchQuery;
         fq_flags := fq_flags fetchQuery; fq_size := true |}
    else fetchQuery in
  let includeAttachmentsInfo := includes includeParts EmailParts.AttachmentsInfo in
  let fetchQuery :=
    if includeAttachmentsInfo then
      {| fq_uid := fq_uid fetchQuery; fq_envelope := fq_envelope fetchQuery;
         fq_bodyStructure := true;
         fq_flags := fq_flags fetchQuery; fq_size := fq_size fetchQuery |}
    else fetchQuery in
  let includeTextContent := includes includeParts EmailParts.TextContent in
  let includeHtmlContent := includes includeParts EmailParts.HtmlContent in
  let fetchQuery :=
    if includeTextContent || includeHtmlContent then
      {| fq_uid := fq_uid fetchQuery; fq_envelope := fq_envelope fetchQuery;
         fq_bodyStructure := true;
         fq_flags := fq_flags fetchQuery; fq_size := fq_size fetchQuery |}
    else fetchQuery in
  fetchQuery.

(** ** The client *)

(** What one [next()] of the generator returned by [client.fetch]
    gives. *)
Inductive IterResult : Type :=
| IterValue (email : FetchMessageObject)
| IterDone
| IterThrow (e : Error).

(** The three methods of [ImapFlow] the action calls, over a state
    [World] that holds the connection and the server behind it.
    [fetch_next] is a [next()] on the generator that
    [fetch(searchObject, fetchQuery)] returned; [download] takes the
    uid string, the part id and the [uid] option, and gives the content
    stream or rejects. *)
Record ImapFlow (World : Type) : Type :=
  MkClient {
    mailboxOpen : string -> bool -> World -> option Error * World;
    fetch_next : SearchObject -> FetchQueryObject -> World -> IterResult * World;
    download : string -> string -> bool -> World -> (Readable + Error) * World
  }.

(** The calls made on the client, each with what it gave back. *)
Inductive Event : Type :=
| EvMailboxOpen (path : string) (readOnly : bool) (r : option Error)
| EvFetchNext (fetchQuery : FetchQueryObject) (r : IterResult)
| EvDownload (uid : string) (partId : string) (byUid : bool)
             (r : Readable + Error).

(** How a run of the action turns out.  [Hangs]: an awaited promise is
    never settled.  [OutOfFuel]: the bound on the number of [next()]
    calls was reached before the generator finished. *)
Inductive Outcome (A : Type) : Type :=
| Returned (a : A)
| Thrown (e : Error)
| Hangs
| OutOfFuel.
Arguments Returned {A} a.
Arguments Thrown {A} e.
Arguments Hangs {A}.
Arguments OutOfFuel {A}.

(** [email.uid.toString()], for the integers that JavaScript prints
    in plain decimal, those below 10^21 in absolute value; an IMAP uid
    is a 32-bit number.  Larger numbers, which JavaScript prints with
    an exponent, are outside what this definition stands for. *)
Definition uid_toString (uid : Z) : string :=
  NilZero.string_of_int (Z.to_int uid).

Definition with_attachmentsInfo (item_json : OutputRecord)
    (v : list AttachmentInfo) : OutputRecord :=
  {| json := json item_json;
     out_attachmentsInfo := Some v;
     out_textContent := out_textContent item_json;
     out_htmlContent := out_htmlContent item_json |}.

Definition with_textContent (item_json : OutputRecord) (v : text)
  : OutputRecord :=
  {| json := json item_json;
     out_attachmentsInfo := out_attachmentsInfo item_json;
     out_textContent := Some v;
     out_htmlContent := out_htmlContent item_json |}.

Definition with_htmlContent (item_json : OutputRecord) (v : text)
  : OutputRecord :=
  {| json := json item_json;
     out_attachmentsInfo := out_attachmentsInfo item_json;
     out_textContent := out_textContent item_json;
     out_htmlContent := Some v |}.

Section Action.

Context {World : Type}.
Variable client : ImapFlow World.

(** An asynchronous computation: it runs from a state of the world
    and the calls logged so far, and ends in an outcome, a new state
    and the extended log. *)
Definition Async (A : Type) : Type :=
  World * list Event -> Outcome A * (World * list Event).

Definition ret {A : Type} (a : A) : Async A :=
  fun s => (Returned a, s).

Definition bind {A B : Type} (m : Async A) (k : A -> Async B) : Async B :=
  fun s =>
    match m s with
    | (Returned a, s') => k a s'
    | (Thrown e, s') => (Thrown e, s')
    | (Hangs, s') => (Hangs, s')
    | (OutOfFuel, s') => (OutOfFuel, s')
    end.

Notation "x <- m ;; k" := (bind m (fun x => k))
  (at level 100, m at next level, right associativity).

(** [await client.mailboxOpen(path, { readOnly })]. *)
Definition await_mailboxOpen (path : string) (readOnly : bool) : Async unit :=
  fun '(w, log) =>
    let (r, w') := mailboxOpen client path readOnly w in
    let log' := log ++ [EvMailboxOpen path readOnly r] in
    match r with
    | None => (Returned tt, (w', log'))
    | Some e => (Thrown e, (w', log'))
    end.

(** One step of the [for await]: a [next()] on the generator. *)
Definition await_next (searchObject : SearchObject)
    (fetchQuery : FetchQueryObject) : Async (option FetchMessageObject) :=
  fun '(w, log) =>
    let (r, w') := fetch_next client searchObject fetchQuery w in
    let log' := log ++ [EvFetchNext fetchQuery r] in
    match r with
    | IterValue email => (Returned (Some email), (w', log'))
    | IterDone => (Returned None, (w', log'))
    | IterThrow e => (Thrown e, (w', log'))
    end.

(** [await client.download(uid, partId, { uid: true })], giving the
    [content] stream. *)
Definition await_download (uid : string) (partId : string) (byUid : bool)
  : Async Readable :=
  fun '(w, log) =>
    let (r, w') := download client uid partId byUid w in
    let log' := log ++ [EvDownload uid partId byUid r] in
    match r with
    | inl content => (Returned content, (w', log'))
    | inr e => (Thrown e, (w', log'))
    end.

(** [await streamToString(stream)]. *)
Definition await_streamToString (stream : Readable) : Async text :=
  fun s =>
    match streamToString stream with
    | Resolved str => (Returned str, s)
    | Rejected e => (Thrown e, s)
    | Pending => (Hangs, s)
    end.

(** Lines 161-164: the [for await] that fills [emailsList].  [fuel]
    bounds the number of [next()] calls. *)
Fixpoint fetchAll (fuel : nat) (searchObject : SearchObject)
    (fetchQuery : FetchQueryObject) (emailsList : list FetchMessageObject)
  : Async (list FetchMessageObject) :=
  match fuel with
  | O => fun s => (OutOfFuel, s)
  | S fuel' =>
      r <- await_next searchObject fetchQuery ;;
      match r with
      | Some email =>
          fetchAll fuel' searchObject fetchQuery (emailsList ++ [email])
      | None => ret emailsList
      end
  end.

(** Lines 224-229 and 230-236: one guarded download.  [partId] is
    downloaded when [include] holds and the id is truthy; [store]
    writes the decoded content into [item_json]. *)
Definition fetchContent (include : bool) (partId : option string)
    (email : FetchMessageObject)
    (store : OutputRecord -> text -> OutputRecord)
    (item_json : OutputRecord) : Async OutputRecord :=
  match partId with
  | Some id =>
      if include && truthy partId then
        content <- await_download (uid_toString (uid email)) id true ;;
        str <- await_streamToString content ;;
        ret (store item_json str)
      else ret item_json
  | None => ret item_json
  end.

(** Lines 169-241: the body of the loop over [emailsList], up to the
    record that is pushed onto [returnData].  [item_json] starts as
    the copy [JSON.parse(JSON.stringify(email))] of the message, of
    which only the [uid] and the [bodyStructure] are relied on (see
    [OutputRecord]); a copy that fails is not modelled. *)
Definition processEmail (includeAttachmentsInfo includeTextContent
    includeHtmlContent : bool) (email : FetchMessageObject)
  : Async OutputRecord :=
  let item_json :=
    {| json := email; out_attachmentsInfo := None;
       out_textContent := None; out_htmlContent := None |} in
  let analyzeBodyStructure :=
    includeAttachmentsInfo || includeTextContent || includeHtmlContent in
  let a := analyze analyzeBodyStructure (bodyStructure email) in
  let item_json :=
    if includeAttachmentsInfo
    then with_attachmentsInfo item_json (attachmentsInfo a)
    else item_json in
  if includeTextContent || includeHtmlContent then
    item_json <- fetchContent includeTextContent (textPartId a) email
                   with_textContent item_json ;;
    item_json <- fetchContent includeHtmlContent (htmlPartId a) email
                   with_htmlContent item_json ;;
    ret item_json
  else ret item_json.

(** Lines 168-242: the loop over [emailsList]. *)
Fixpoint processEmails (includeAttachmentsInfo includeTextContent
    includeHtmlContent : bool) (emailsList : list FetchMessageObject)
    (returnData : list OutputRecord) : Async (list OutputRecord) :=
  match emailsList with
  | [] => ret returnData
  | email :: emailsList' =>
      item <- processEmail includeAttachmentsInfo includeTextContent
                includeHtmlContent email ;;
      processEmails includeAttachmentsInfo includeTextContent
        includeHtmlContent emailsList' (returnData ++ [item])
  end.

(** [executeImapAction] (lines 119-245).  The mailbox path, the
    search object and [includeParts] are read from the node
    parameters by functions defined elsewhere and are taken as
    arguments; the calls to the logger are left out. *)
Definition executeImapAction (fuel : nat) (mailboxPath : string)
    (searchObject : SearchObject) (includeParts : list string)
  : Async (list OutputRecord) :=
  let returnData : list OutputRecord := [] in
  _ <- await_mailboxOpen mailboxPath true ;;
  let fetchQuery := buildFetchQuery includeParts in
  let includeAttachmentsInfo := includes includeParts EmailParts.AttachmentsInfo in
  let includeTextContent := includes includeParts EmailParts.TextContent in
  let includeHtmlContent := includes includeParts EmailParts.HtmlContent in
  emailsList <- fetchAll fuel searchObject fetchQuery [] ;;
  processEmails includeAttachmentsInfo includeTextContent
    includeHtmlContent emailsList returnData.

(** A run from a fresh log: the outcome and the calls made. *)
Definition run (fuel : nat) (mailboxPath : string)
    (searchObject : SearchObject) (includeParts : list string) (w : World)
  : Outcome (list OutputRecord) * list Event :=
  let (r, s) := executeImapAction fuel mailboxPath searchObject
                  includeParts (w, []) in
  (r, snd s).

End Action.

(** ** Reading the log *)

Definition is_download (ev : Event) : bool :=
  match ev with EvDownload _ _ _ _ => true | _ => false end.

Definition is_fetch_next (ev : Event) : bool :=
  match ev with EvFetchNext _ _ => true | _ => false end.

(** The [next()] that reported the end of the generator. *)
Definition is_fetch_done (ev : Event) : bool :=
  match ev with EvFetchNext _ IterDone => true | _ => false end.

(** The error of the transport a stream reports: the first ['error']
    it emits, when no ['end'] comes before it.  This reads the events
    of the stream only, not what [streamToString] makes of them. *)
Fixpoint stream_error (stream : Readable) : option Error :=
  match stream with
  | [] => None
  | OnData _ :: stream' => stream_error stream'
  | OnEnd :: _ => None
  | OnError e :: _ => Some e
  end.

(** The error a logged call ended with, when it did: a rejected
    [mailboxOpen], a [next()] that threw, a rejected [download], or a
    downloaded stream that emits ['error'] before ['end']. *)
Definition failure_of (ev : Event) : option Error :=
  match ev with
  | EvMailboxOpen _ _ r => r
  | EvFetchNext _ (IterThrow e) => Some e
  | EvFetchNext _ _ => None
  | EvDownload _ _ _ (inr e) => Some e
  | EvDownload _ _ _ (inl content) => stream_error content
  end.

(** ** A scripted client

    A client that replays canned answers: the generator yields the
    results of [sc_fetch] one after the other (and reports the end once
    they are used up), and the n-th download gets the n-th answer of
    [sc_downloads] (an empty, ended stream once they are used up). *)
Record Script : Type :=
  MkScript {
    sc_fetch : list IterResult;
    sc_downloads : list (Readable + Error)
  }.

Definition scripted : ImapFlow Script :=
  {| mailboxOpen := fun _ _ w => (None, w);
     fetch_next := fun _ _ w =>
       match sc_fetch w with
       | [] => (IterDone, w)
       | r :: rest => (r, {| sc_fetch := rest; sc_downloads := sc_downloads w |})
       end;
     download := fun _ _ _ w =>
       match sc_downloads w with
       | [] => (inl [OnEnd], w)
       | r :: rest => (r, {| sc_fetch := sc_fetch w; sc_downloads := rest |})
       end |}.

(* ===================================================================== *)
(** * Specifications of asynchronous computations *)
(* ===================================================================== *)

Section Specs.

Context {World : Type}.

(** [m] meets [Q] when, from every state, it only appends to the log
    and [Q] relates its outcome to the calls it appended. *)
Definition meets {A : Type} (m : @Async World A)
    (Q : Outcome A -> list Event -> Prop) : Prop :=
  forall w log, exists added,
    snd (snd (m (w, log))) = log ++ added
    /\ Q (fst (m (w, log))) added.

(** Every appended call that ended with an error is the error the
    computation was aborted with. *)
Definition aborts_on_failure {A : Type} (r : Outcome A)
    (added : list Event) : Prop :=
  forall ev e, In ev added -> failure_of ev = Some e -> r = Thrown e.

(** The calls of the bulk fetch: only [next()] calls, all with the
    same query, and when the fetch returned, the last of them
    reported the end of the generator. *)
Definition fetch_calls (fetchQuery : FetchQueryObject) {A : Type}
    (r : Outcome A) (added : list Event) : Prop :=
  Forall (fun ev => exists res, ev = EvFetchNext fetchQuery res) added
  /\ forall a, r = Returned a ->
       exists before, added = before ++ [EvFetchNext fetchQuery IterDone].

(** The calls of the per-message processing: only downloads, and
    none at all unless text or HTML content was asked for. *)
Definition download_calls (includeTextContent includeHtmlContent : bool)
    {A : Type} (r : Outcome A) (added : list Event) : Prop :=
  Forall (fun ev => is_download ev = true) added
  /\ (includeTextContent || includeHtmlContent = false -> added = []).

(** What the loop guarantees about the record of one message. *)
Definition record_fields (includeAttachmentsInfo includeTextContent
    includeHtmlContent : bool) (item : OutputRecord) : Prop :=
  let a := analyze true (bodyStructure (json item)) in
  out_attachmentsInfo item
  = (if includeAttachmentsInfo then Some (attachmentsInfo a) else None)
  /\ (out_textContent item <> None ->
        includeTextContent = true /\ truthy (textPartId a) = true)
  /\ (out_htmlContent item <> None ->
        includeHtmlContent = true /\ truthy (htmlPartId a) = true).

(** The shape of the log of a whole run: the opening of the mailbox,
    then the [next()] calls of the bulk fetch, then the downloads. *)
Definition run_shape (includeParts : list string) (log : list Event)
  : Prop :=
  exists opened fetches downloads,
    log = opened :: fetches ++ downloads
    /\ is_download opened = false /\ is_fetch_next opened = false
    /\ Forall (fun ev => exists res,
                 ev = EvFetchNext (buildFetchQuery includeParts) res) fetches
    /\ Forall (fun ev => is_download ev = true) downloads
    /\ (downloads <> [] ->
          exists before,
            fetches = before ++ [EvFetchNext (buildFetchQuery includeParts)
                                             IterDone])
    /\ (includes includeParts EmailParts.TextContent
        || includes includeParts EmailParts.HtmlContent = false ->
          downloads = []).

End Specs.

(* ===================================================================== *)
(** * Sample inputs *)
(* ===================================================================== *)

Module Samples.

Definition leaf (partId mime : string) (sz : Z) : BodyStructureNode :=
  {| part := Some partId; type := Some mime; encoding := Some "7bit";
     size := Some sz; disposition := None; dispositionFilename := None;
     childNodes := None |}.

Definition attachment (partId mime filename : string) (sz : Z)
  : BodyStructureNode :=
  {| part := Some partId; type := Some mime; encoding := Some "base64";
     size := Some sz; disposition := Some "attachment";
     dispositionFilename := Some filename; childNodes := None |}.

Definition multipart (partId : option string) (mime : string)
    (children : list BodyStructureNode) : BodyStructureNode :=
  {| part := partId; type := Some mime; encoding := None;
     size := None; disposition := None; dispositionFilename := None;
     childNodes := Some children |}.

(** A text part, an HTML part and a PDF attachment. *)
Definition mixed : BodyStructureNode :=
  multipart None "multipart/mixed"
    [ leaf "1" "text/plain" 10;
      leaf "2" "text/html" 20;
      attachment "3" "application/pdf" "a.pdf" 500 ].

(** An alternative nested in a mixed message, with two plain-text
    parts. *)
Definition nested : BodyStructureNode :=
  multipart None "multipart/mixed"
    [ multipart (Some "1") "multipart/alternative"
        [ leaf "1.1" "text/plain" 10; leaf "1.2" "text/html" 20 ];
      attachment "2" "image/png" "logo.png" 300;
      leaf "3" "text/plain" 5 ].

(** A forwarded message: imapflow gives a [message/rfc822] part both
    its size and the structure of the embedded message as
    [childNodes]. *)
Definition embedded : BodyStructureNode :=
  {| part := Some "2"; type := Some "message/rfc822";
     encoding := Some "7bit"; size := Some 2048%Z;
     disposition := Some "attachment";
     dispositionFilename := Some "forwarded.eml";
     childNodes := Some [ leaf "2.1" "text/plain" 40 ] |}.

Definition forwarded : BodyStructureNode :=
  multipart None "multipart/mixed" [ leaf "1" "text/plain" 12; embedded ].

(** Single-part messages. *)
Definition singlePlain : BodyStructureNode :=
  {| part := None; type := Some "text/plain"; encoding := Some "7bit";
     size := Some 64%Z; disposition := None; dispositionFilename := None;
     childNodes := None |}.

Definition singleHtml : BodyStructureNode :=
  {| part := None; type := Some "text/html"; encoding := Some "7bit";
     size := Some 64%Z; disposition := None; dispositionFilename := None;
     childNodes := None |}.

Definition message (n : Z) (bs : BodyStructureNode) : FetchMessageObject :=
  {| uid := n; bodyStructure := Some bs; others := "envelope" |}.

Definition bare (n : Z) : FetchMessageObject :=
  {| uid := n; bodyStructure := None; others := "envelope" |}.

(** The bytes of "Hi". *)
Definition hi : list Byte.byte := [Byte.x48; Byte.x69].

Definition okStream : Readable := [OnData hi; OnEnd].

(** Two messages, both downloads succeed. *)
Definition twoMessages : Script :=
  {| sc_fetch := [IterValue (message 11 mixed); IterValue (message 12 singlePlain)];
     sc_downloads := [inl okStream; inl okStream; inl okStream] |}.

(** Five messages; the download for the third one is rejected. *)
Definition thirdFails : Script :=
  {| sc_fetch := [IterValue (message 1 singlePlain);
                  IterValue (message 2 singlePlain);
                  IterValue (message 3 singlePlain);
                  IterValue (message 4 singlePlain);
                  IterValue (message 5 singlePlain)];
     sc_downloads := [inl okStream; inl okStream; inr "ECONNRESET"] |}.

(** One message without body structure and one with attachments. *)
Definition withAndWithout : Script :=
  {| sc_fetch := [IterValue (bare 21); IterValue (message 22 mixed)];
     sc_downloads := [] |}.

(** A run that downloads text and HTML for two messages. *)
Definition contentRun : Outcome (list OutputRecord) * list Event :=
  run scripted 5 "INBOX" "ALL"
    [EmailParts.TextContent; EmailParts.HtmlContent] twoMessages.

(** A run over five messages whose third download is rejected. *)
Definition failingRun : Outcome (list OutputRecord) * list Event :=
  run scripted 10 "INBOX" "ALL" [EmailParts.TextContent] thirdFails.

(** A run that only asks for the attachments info. *)
Definition attachmentsRun : Outcome (list OutputRecord) * list Event :=
  run scripted 5 "INBOX" "ALL" [EmailParts.AttachmentsInfo] withAndWithout.

Definition bareRecord : OutputRecord :=
  {| json := bare 21; out_attachmentsInfo := Some [];
     out_textContent := None; out_htmlContent := None |}.

Definition pdfRecord : OutputRecord :=
  {| json := message 22 mixed;
     out_attachmentsInfo :=
       Some [ {| at_partId := Some "3"; at_filename := Some "a.pdf";
                 at_type := Some "application/pdf";
                 at_encoding := Some "base64"; at_size := 500 |} ];
     out_textContent := None; out_htmlContent := None |}.

(** The first download of [contentRun]. *)
Definition firstDownload : Event :=
  EvDownload "11" "1" true (inl okStream).

(** The rejected download of [failingRun]. *)
Definition rejectedDownload : Event :=
  EvDownload "3" "TEXT" true (inr "ECONNRESET").

(** A stream that breaks after its first chunk. *)
Definition brokenStream : Readable :=
  [OnData hi; OnError "ECONNRESET"].

(** Five messages; the stream of the third download breaks. *)
Definition thirdBreaks : Script :=
  {| sc_fetch := [IterValue (message 1 singlePlain);
                  IterValue (message 2 singlePlain);
                  IterValue (message 3 singlePlain);
                  IterValue (message 4 singlePlain);
                  IterValue (message 5 singlePlain)];
     sc_downloads := [inl okStream; inl okStream; inl brokenStream] |}.

Definition breakingRun : Outcome (list OutputRecord) * list Event :=
  run scripted 10 "INBOX" "ALL" [EmailParts.TextContent] thirdBreaks.

(** The download of [breakingRun] whose stream breaks. *)
Definition brokenDownload : Event :=
  EvDownload "3" "TEXT" true (inl brokenStream).

(** A multipart message whose only part has no size. *)
Definition sizeless : BodyStructureNode :=
  multipart None "multipart/mixed"
    [ {| part := Some "1"; type := Some "text/plain"; encoding := None;
         size := None; disposition := None; dispositionFilename := None;
         childNodes := None |} ].

End Samples.

(* ===================================================================== *)
(** * The listing action, described by its calls *)
(* ===================================================================== *)

(** The guard of a content download, [include && partId] (lines 224
    and 230): the part id that is downloaded, if any. *)
Definition wanted (include : bool) (partId : option string) : option string :=
  if include && truthy partId then partId else None.

(** The downloads the loop asks for on behalf of one message (lines
    223-237), each as (uid string, part id, the [uid] option): the text
    part first, then the HTML part. *)
Definition requests (includeTextContent includeHtmlContent : bool)
    (email : FetchMessageObject) : list (string * string * bool) :=
  let a := analyze true (bodyStructure email) in
  let u := uid_toString (uid email) in
  match wanted includeTextContent (textPartId a) with
  | Some id => [(u, id, true)]
  | None => []
  end
  ++ match wanted includeHtmlContent (htmlPartId a) with
     | Some id => [(u, id, true)]
     | None => []
     end.

(** The downloads a log holds, in order, without their answers. *)
Definition download_requests (log : list Event)
  : list (string * string * bool) :=
  flat_map (fun ev => match ev with
                      | EvDownload u p b _ => [(u, p, b)]
                      | _ => []
                      end) log.

(** The messages the generator yielded in a log, in order. *)
Definition fetched (log : list Event) : list FetchMessageObject :=
  flat_map (fun ev => match ev with
                      | EvFetchNext _ (IterValue email) => [email]
                      | _ => []
                      end) log.

(** What the two awaits on a download come to: the rejection of the
    download itself, or the way [streamToString] settles on its
    stream. *)
Definition settle (res : Readable + Error) : Settled text :=
  match res with
  | inl content => streamToString content
  | inr e => Rejected e
  end.

Definition after_download (store : OutputRecord -> text -> OutputRecord)
    (item_json : OutputRecord) (res : Readable + Error)
  : Outcome OutputRecord :=
  match settle res with
  | Resolved str => Returned (store item_json str)
  | Rejected e => Thrown e
  | Pending => Hangs
  end.

(** The calls and the outcome of one guarded download. *)
Definition guarded_download (u : string) (partId : option string)
    (store : OutputRecord -> text -> OutputRecord) (item_json : OutputRecord)
    (r : Outcome OutputRecord) (added : list Event) : Prop :=
  match partId with
  | None => added = [] /\ r = Returned item_json
  | Some id =>
      exists res, added = [EvDownload u id true res]
                  /\ r = after_download store item_json res
  end.

(** Sequencing of two descriptions: the second one applies when the
    first computation returned; otherwise its outcome is the outcome
    of the whole and nothing more is called. *)
Definition and_then {A B : Type} (Q1 : Outcome A -> list Event -> Prop)
    (Q2 : A -> Outcome B -> list Event -> Prop)
    (r : Outcome B) (added : list Event) : Prop :=
  exists r1 l1 l2,
    added = l1 ++ l2 /\ Q1 r1 l1
    /\ match r1 with
       | Returned a => Q2 a r l2
       | Thrown e => l2 = [] /\ r = Thrown e
       | Hangs => l2 = [] /\ r = Hangs
       | OutOfFuel => l2 = [] /\ r = OutOfFuel
       end.

(** [item_json] before the downloads (lines 170-220). *)
Definition item_before_downloads (includeAttachmentsInfo : bool)
    (email : FetchMessageObject) : OutputRecord :=
  let item_json :=
    {| json := email; out_attachmentsInfo := None;
       out_textContent := None; out_htmlContent := None |} in
  if includeAttachmentsInfo
  then with_attachmentsInfo item_json
         (attachmentsInfo (analyze true (bodyStructure email)))
  else item_json.

(** The calls and the outcome of the loop body for one message. *)
Definition message_run (a t h : bool) (email : FetchMessageObject)
  : Outcome OutputRecord -> list Event -> Prop :=
  let an := analyze true (bodyStructure email) in
  let u := uid_toString (uid email) in
  and_then
    (guarded_download u (wanted t (textPartId an)) with_textContent
       (item_before_downloads a email))
    (fun item_json =>
       guarded_download u (wanted h (htmlPartId an)) with_htmlContent
         item_json).

(** The calls and the outcome of the loop over [emailsList]. *)
Fixpoint messages_run (a t h : bool) (emailsList : list FetchMessageObject)
    (returnData : list OutputRecord)
  : Outcome (list OutputRecord) -> list Event -> Prop :=
  match emailsList with
  | [] => fun r added => added = [] /\ r = Returned returnData
  | email :: emailsList' =>
      and_then (message_run a t h email)
        (fun item => messages_run a t h emailsList' (returnData ++ [item]))
  end.

(** The [next()] calls that yielded the given messages. *)
Definition yields (fetchQuery : FetchQueryObject)
    (emails : list FetchMessageObject) : list Event :=
  map (fun email => EvFetchNext fetchQuery (IterValue email)) emails.

(** The calls and the outcome of the bulk fetch. *)
Definition bulk_fetch (fetchQuery : FetchQueryObject)
    (emailsList : list FetchMessageObject)
    (r : Outcome (list FetchMessageObject)) (added : list Event) : Prop :=
  match r with
  | Returned l =>
      exists new, l = emailsList ++ new
                  /\ added = yields fetchQuery new
                             ++ [EvFetchNext fetchQuery IterDone]
  | Thrown e =>
      exists new, added = yields fetchQuery new
                          ++ [EvFetchNext fetchQuery (IterThrow e)]
  | Hangs => False
  | OutOfFuel => exists new, added = yields fetchQuery new
  end.

(** The calls and the outcome of the opening of the mailbox. *)
Definition mailbox_opening (path : string) (r : Outcome unit)
    (added : list Event) : Prop :=
  exists res, added = [EvMailboxOpen path true res]
              /\ r = match res with
                     | None => Returned tt
                     | Some e => Thrown e
                     end.

(** The calls and the outcome of the whole action. *)
Definition action_run (mailboxPath : string) (includeParts : list string)
  : Outcome (list OutputRecord) -> list Event -> Prop :=
  let a := includes includeParts EmailParts.AttachmentsInfo in
  let t := includes includeParts EmailParts.TextContent in
  let h := includes includeParts EmailParts.HtmlContent in
  and_then (mailbox_opening mailboxPath)
    (fun _ =>
       and_then (bulk_fetch (buildFetchQuery includeParts) [])
         (fun emailsList => messages_run a t h emailsList [])).

Definition b2n (b : bool) : nat := if b then 1 else 0.

(** Where the content of a record comes from: nothing when no part
    was wanted, else the decoded stream of a download of that part. *)
Definition content_from (log : list Event) (u : string)
    (partId : option string) (field : option text) : Prop :=
  match partId with
  | None => field = None
  | Some id =>
      exists res str, In (EvDownload u id true res) log
                      /\ settle res = Resolved str
                      /\ field = Some str
  end.

(** What a returned record holds, given the calls of the run. *)
Definition record_contents (a t h : bool) (log : list Event)
    (item : OutputRecord) : Prop :=
  let an := analyze true (bodyStructure (json item)) in
  let u := uid_toString (uid (json item)) in
  out_attachmentsInfo item
  = (if a then Some (attachmentsInfo an) else None)
  /\ content_from log u (wanted t (textPartId an)) (out_textContent item)
  /\ content_from log u (wanted h (htmlPartId an)) (out_htmlContent item).

Module MoreSamples.

(** The letter e with an acute accent, U+00E9, in UTF-8. *)
Definition eacute : list Byte.byte := [Byte.xc3; Byte.xa9].

(** A stream that never ends. *)
Definition stalled : Readable := [OnData Samples.hi].

(** One message whose text download stalls. *)
Definition stallingScript : Script :=
  {| sc_fetch := [IterValue (Samples.message 31 Samples.singlePlain)];
     sc_downloads := [inl stalled] |}.

Definition stallingRun : Outcome (list OutputRecord) * list Event :=
  run scripted 5 "INBOX" "ALL" [EmailParts.TextContent] stallingScript.

(** The generator throws after one message. *)
Definition brokenFetch : Script :=
  {| sc_fetch := [IterValue (Samples.message 41 Samples.mixed);
                  IterThrow "EPIPE"];
     sc_downloads := [] |}.

Definition brokenRun : Outcome (list OutputRecord) * list Event :=
  run scripted 5 "INBOX" "ALL" [EmailParts.TextContent] brokenFetch.

(** A client whose mailbox cannot be opened. *)
Definition lockedClient : ImapFlow Script :=
  {| mailboxOpen := fun _ _ w => (Some "NONEXISTENT", w);
     fetch_next := fetch_next scripted;
     download := download scripted |}.

(** A single-part message that is a text file sent as an
    attachment. *)
Definition attachedText : BodyStructureNode :=
  {| part := None; type := Some "text/plain"; encoding := Some "base64";
     size := Some 900%Z; disposition := Some "attachment";
     dispositionFilename := Some "notes.txt"; childNodes := None |}.

(** The records of [Samples.contentRun]. *)
Definition contentRecord1 : OutputRecord :=
  {| json := Samples.message 11 Samples.mixed;
     out_attachmentsInfo := None;
     out_textContent := Some [72; 105]%N;
     out_htmlContent := Some [72; 105]%N |}.

Definition contentRecord2 : OutputRecord :=
  {| json := Samples.message 12 Samples.singlePlain;
     out_attachmentsInfo := None;
     out_textContent := Some [72; 105]%N;
     out_htmlContent := None |}.

(** A run on a mailbox in which the search finds nothing. *)
Definition emptyRun : Outcome (list OutputRecord) * list Event :=
  run scripted 3 "INBOX" "ALL"
    [EmailParts.TextContent; EmailParts.AttachmentsInfo]
    {| sc_fetch := []; sc_downloads := [] |}.

End MoreSamples.

(* ===================================================================== *)
(** * Properties of the walker *)
(* ===================================================================== *)

Section Walker.

(** Induction on the tree with the hypothesis available for every
    child. *)
Lemma BodyStructureNode_tree_ind (P : BodyStructureNode -> Prop) :
  (forall p t e s d f, P (MkNode p t e s d f None)) ->
  (forall p t e s d f cs, Forall P cs -> P (MkNode p t e s d f (Some cs))) ->
  forall n, P n.
Proof.
  intros Hleaf Hnode.
  fix IH 1.
  intros [p t e s d f [cs|]]; [ | apply Hleaf ].
  apply Hnode.
  induction cs as [| c cs IHcs]; constructor; [ apply IH | exact IHcs ].
Qed.

Lemma walk_no_childNodes n :
  childNodes n = None -> getEmailPartsInfoRecursive n = [].
Proof. destruct n as [p t e s d f [cs|]]; simpl; [discriminate | reflexivity]. Qed.

(** The accumulator loop is a [flat_map] over the children. *)
Lemma walk_unfold p t e s d f cs :
  getEmailPartsInfoRecursive (MkNode p t e s d f (Some cs)) = walk_children cs.
Proof.
  simpl.
  assert (G : forall acc,
    (fix loop (rest : list BodyStructureNode)
              (partsInfo : list EmailPartInfo) {struct rest}
       : list EmailPartInfo :=
       match rest with
       | [] => partsInfo
       | childNode :: rest' =>
           loop rest'
             match childNode with
             | MkNode _ _ _ _ _ _ (Some _) =>
                 (partsInfo ++ pushed childNode)
                   ++ getEmailPartsInfoRecursive childNode
             | MkNode _ _ _ _ _ _ None => partsInfo ++ pushed childNode
             end
       end) cs acc = acc ++ walk_children cs).
  { induction cs as [| c cs IHcs]; intros acc; simpl.
    - now rewrite app_nil_r.
    - rewrite IHcs.
      destruct c as [p' t' e' s' d' f' [cs'|]].
      + now rewrite <- !app_assoc.
      + rewrite (walk_no_childNodes (MkNode p' t' e' s' d' f' None) eq_refl).
        now rewrite app_nil_r, <- app_assoc. }
  apply (G []).
Qed.

Lemma descendants_unfold p t e s d f cs :
  descendants (MkNode p t e s d f (Some cs))
  = flat_map (fun c => c :: descendants c) cs.
Proof.
  simpl. induction cs as [| c cs IHcs]; simpl; [reflexivity | now rewrite IHcs].
Qed.

(** The walker emits what each node below the root pushes, the nodes
    taken in pre-order. *)
Lemma walk_descendants root :
  getEmailPartsInfoRecursive root = flat_map pushed (descendants root).
Proof.
  induction root as [p t e s d f | p t e s d f cs IH]
    using BodyStructureNode_tree_ind; [reflexivity |].
  rewrite walk_unfold, descendants_unfold. unfold walk_children.
  induction IH as [| c cs Hc _ IHcs]; simpl; [reflexivity |].
  rewrite flat_map_app, IHcs, Hc. now rewrite app_assoc.
Qed.

Lemma pushed_length n : List.length (pushed n) = if has_size n then 1 else 0.
Proof. unfold pushed, has_size. now destruct (size n). Qed.

Lemma flat_map_pushed_length l :
  List.length (flat_map pushed l) = List.length (filter has_size l).
Proof.
  induction l as [| n l IHl]; simpl; [reflexivity |].
  rewrite List.length_app, pushed_length, IHl.
  now destruct (has_size n).
Qed.

Lemma in_flat_map_pushed d l :
  In d (flat_map pushed l) <->
  exists n sz, In n l /\ size n = Some sz /\ d = partInfoOf n sz.
Proof.
  rewrite in_flat_map. unfold pushed. split.
  - intros [n [Hn Hd]]. destruct (size n) as [sz|] eqn:E; simpl in Hd.
    + destruct Hd as [<- | []]. now exists n, sz.
    + contradiction.
  - intros [n [sz [Hn [Hs ->]]]]. exists n. rewrite Hs. simpl. auto.
Qed.

(** When no container carries a size, the sized nodes are the sized
    leaves. *)
Lemma sized_are_leaves l :
  containers_unsized l -> filter has_size l = filter sized_leaf l.
Proof.
  intros Hinv. apply filter_ext_in. intros n Hn. unfold sized_leaf.
  destruct (has_children n) eqn:Hc; simpl; [ | reflexivity ].
  unfold has_size. now rewrite (Hinv n Hn Hc).
Qed.

(** On a tree that obeys the data-model invariant the walker emits
    one descriptor per sized leaf below the root, and none for a
    container. *)
Lemma walker_on_invariant_trees root :
  containers_unsized (descendants root) ->
  List.length (getEmailPartsInfoRecursive root)
  = List.length (filter sized_leaf (descendants root))
  /\ forall d, In d (getEmailPartsInfoRecursive root) ->
       exists n sz, In n (descendants root) /\ has_children n = false
                    /\ size n = Some sz /\ d = partInfoOf n sz.
Proof.
  intros Hinv. rewrite walk_descendants. split.
  - now rewrite flat_map_pushed_length, sized_are_leaves.
  - intros d Hd. apply in_flat_map_pushed in Hd.
    destruct Hd as [n [sz [Hn [Hs ->]]]]. exists n, sz.
    repeat split; trivial.
    destruct (has_children n) eqn:Hc; [ | reflexivity ].
    rewrite (Hinv n Hn Hc) in Hs. discriminate.
Qed.

(** C1, as the claim states it, fails on a forwarded message: the
    [message/rfc822] part has children and a size, and it is emitted.
    The tree holds two nodes with no children and a size, and the
    walker returns three descriptors, one of them for the
    container. *)
Lemma walker_emits_sized_container :
  List.length (filter sized_leaf (preorder Samples.forwarded)) = 2
  /\ List.length (getEmailPartsInfoRecursive Samples.forwarded) = 3
  /\ has_children Samples.embedded = true
  /\ In (partInfoOf Samples.embedded 2048%Z)
        (getEmailPartsInfoRecursive Samples.forwarded).
Proof. repeat split; try reflexivity. simpl. auto. Qed.

(** A root without children is a sized leaf of its tree, and the
    walker returns nothing for it. *)
Lemma walker_skips_root :
  List.length (filter sized_leaf (preorder Samples.singlePlain)) = 1
  /\ getEmailPartsInfoRecursive Samples.singlePlain = [].
Proof. split; reflexivity. Qed.

(** A part without a size is passed over, and nothing fails. *)
Example walker_skips_sizeless :
  getEmailPartsInfoRecursive Samples.sizeless = [].
Proof. reflexivity. Qed.

(** C1 (amended): for every body-structure tree the walker returns
    exactly one descriptor per node below the root that carries a
    size, whether or not that node has children; the root is never
    emitted, and a node without a size is left out (the walker is a
    total function, it has no failure). *)
Theorem walker_one_descriptor_per_sized_node (root : BodyStructureNode) :
  List.length (getEmailPartsInfoRecursive root)
  = List.length (filter has_size (descendants root))
  /\ forall d, In d (getEmailPartsInfoRecursive root) <->
       exists n sz, In n (descendants root) /\ size n = Some sz
                    /\ d = partInfoOf n sz.
Proof.
  rewrite walk_descendants. split.
  - apply flat_map_pushed_length.
  - intros d. apply in_flat_map_pushed.
Qed.

(** C7: the walker emits its descriptors in pre-order, depth first,
    the children of each node in the order of its [childNodes]
    array: the output is what the nodes below the root push, read
    off the pre-order listing of the tree, where the listing of a
    node is the node followed by the listings of its children in
    order. *)
Theorem walker_preorder (root : BodyStructureNode) :
  getEmailPartsInfoRecursive root = flat_map pushed (tl (preorder root))
  /\ forall p t e s d f cs,
       preorder (MkNode p t e s d f (Some cs))
       = MkNode p t e s d f (Some cs) :: flat_map preorder cs.
Proof.
  split.
  - apply walk_descendants.
  - intros. unfold preorder at 1. now rewrite descendants_unfold.
Qed.

End Walker.

(* ===================================================================== *)
(** * Properties of the classification *)
(* ===================================================================== *)

Section Classification.

(** No type is both ['text/plain'] and ['text/html']. *)
Lemma plain_not_html t :
  strict_eq t "text/plain" = true -> strict_eq t "text/html" = false.
Proof.
  destruct t as [s|]; simpl; [ | discriminate ].
  intros H. apply String.eqb_eq in H. now subst s.
Qed.

Lemma classifyPart_loop leaves :
  forall st, fold_left classifyPart leaves st = after_loop st leaves.
Proof.
  induction leaves as [| x leaves IH]; intros st.
  - destruct st. unfold after_loop. simpl. now rewrite app_nil_r.
  - simpl fold_left. rewrite IH. unfold after_loop. simpl.
    unfold classifyPart. fold (is_attachment x).
    destruct (is_attachment x) eqn:Ha; simpl.
    + rewrite <- app_assoc. simpl.
      f_equal.
      * now destruct (last_such _ leaves).
      * now destruct (last_such _ leaves).
    + destruct (strict_eq (pi_type x) "text/plain") eqn:Hp.
      * rewrite (plain_not_html _ Hp). simpl.
        f_equal;
          now destruct (last_such _ leaves).
      * destruct (strict_eq (pi_type x) "text/html") eqn:Hh; simpl;
          f_equal; now destruct (last_such _ leaves).
Qed.

(** The attachments of a classified body structure, in both
    branches: the single-part branch adds none, and the walker
    returns nothing for a root without [childNodes]. *)
Lemma classify_attachments bs :
  attachmentsInfo (classify bs)
  = map attachmentOf (filter is_attachment (getEmailPartsInfoRecursive bs)).
Proof.
  unfold classify. destruct (childNodes bs) as [cs|] eqn:E.
  - now rewrite classifyPart_loop.
  - rewrite (walk_no_childNodes bs E). unfold classifySinglePart. simpl.
    now destruct (strict_eq (type bs) "text/plain"),
                 (strict_eq (type bs) "text/html").
Qed.

(** C2: for a root with children, the classification handles the
    walked descriptors in traversal order: the attachments are the
    descriptors with disposition ['attachment'], in that order, each
    with its partId, filename, type, encoding and size; among the
    others, [textPartId] is the part id of the last ['text/plain']
    one and [htmlPartId] that of the last ['text/html'] one. *)
Theorem classify_multipart (root : BodyStructureNode)
    (children : list BodyStructureNode) :
  childNodes root = Some children ->
  classify root = classify_spec (getEmailPartsInfoRecursive root).
Proof.
  intros H. unfold classify. rewrite H. simpl.
  rewrite classifyPart_loop. reflexivity.
Qed.

Lemma classify_multipart_witness :
  (exists children, childNodes Samples.nested = Some children)
  /\ classify Samples.nested
     = classify_spec (getEmailPartsInfoRecursive Samples.nested)
  /\ classify_spec (getEmailPartsInfoRecursive Samples.nested)
     = {| textPartId := Some "3";
          htmlPartId := Some "1.2";
          attachmentsInfo :=
            [ {| at_partId := Some "2"; at_filename := Some "logo.png";
                 at_type := Some "image/png"; at_encoding := Some "base64";
                 at_size := 300 |} ] |}.
Proof.
  split; [ eexists; reflexivity | ].
  split; [ | reflexivity ].
  exact (@classify_multipart Samples.nested _ eq_refl).
Defined.

(** The example of the specification: a plain-text leaf, an HTML
    leaf and a PDF attachment. *)
Example classify_mixed :
  classify Samples.mixed
  = {| textPartId := Some "1";
       htmlPartId := Some "2";
       attachmentsInfo :=
         [ {| at_partId := Some "3"; at_filename := Some "a.pdf";
              at_type := Some "application/pdf";
              at_encoding := Some "base64"; at_size := 500 |} ] |}.
Proof. reflexivity. Qed.

(** C8: for a root without [childNodes], a ['text/plain'] type gives
    [textPartId = "TEXT"] and no [htmlPartId], a ['text/html'] type
    gives [htmlPartId = "TEXT"] and no [textPartId], and the
    attachments list is empty whatever the type. *)
Theorem classify_single_part (root : BodyStructureNode) :
  childNodes root = None ->
  (type root = Some "text/plain" ->
     textPartId (classify root) = Some "TEXT"
     /\ htmlPartId (classify root) = None)
  /\ (type root = Some "text/html" ->
     htmlPartId (classify root) = Some "TEXT"
     /\ textPartId (classify root) = None)
  /\ attachmentsInfo (classify root) = [].
Proof.
  intros H. unfold classify. rewrite H. unfold classifySinglePart.
  split; [ | split ].
  - intros Ht. rewrite Ht. split; reflexivity.
  - intros Ht. rewrite Ht. split; reflexivity.
  - now destruct (strict_eq (type root) "text/plain"),
                 (strict_eq (type root) "text/html").
Qed.

Lemma classify_single_part_witness :
  childNodes Samples.singlePlain = None
  /\ type Samples.singlePlain = Some "text/plain"
  /\ textPartId (classify Samples.singlePlain) = Some "TEXT"
  /\ htmlPartId (classify Samples.singlePlain) = None
  /\ attachmentsInfo (classify Samples.singlePlain) = [].
Proof.
  destruct (@classify_single_part Samples.singlePlain eq_refl)
    as [Hplain [_ Hnone]].
  destruct (Hplain eq_refl) as [Htext Hhtml].
  split; [ reflexivity | ]. split; [ reflexivity | ].
  split; [ exact Htext | ]. split; [ exact Hhtml | exact Hnone ].
Defined.

(** The same for a single HTML part. *)
Example classify_single_html :
  classify Samples.singleHtml
  = {| textPartId := None; htmlPartId := Some "TEXT"; attachmentsInfo := [] |}.
Proof. reflexivity. Qed.

(** A [childNodes] array that is there but empty is truthy: the
    multipart branch runs, the walker returns nothing and no part id
    is set. *)
Lemma classify_empty_childNodes p t e s d f :
  classify (MkNode p t e s d f (Some [])) = noAnalysis.
Proof. reflexivity. Qed.

End Classification.

(* ===================================================================== *)
(** * Properties of [streamToString] *)
(* ===================================================================== *)

Section Stream.

(** Either the scan met no ill-formed sequence, or the decoded text
    holds a replacement character. *)
Lemma lenient_decoding (bytes : list Byte.byte) :
  utf8_valid bytes = true \/ In REPLACEMENT (toString_utf8 bytes).
Proof.
  unfold utf8_valid, toString_utf8.
  induction (utf8_scan None bytes) as [| [cp|] l IHl]; simpl.
  - now left.
  - destruct IHl as [Hv | Hin]; [left | right]; auto.
  - right. now left.
Qed.

Lemma streamToString_from_end chunks more rest i :
  streamToString_from chunks (map OnData more ++ OnEnd :: rest)
  = Resolved (toString_utf8 (List.concat (chunks ++ more)))
  /\ streamToString_from chunks (map OnData more ++ OnError i :: rest)
     = Rejected i
  /\ streamToString_from chunks (map OnData more) = Pending.
Proof.
  revert chunks. induction more as [| c more IH]; intros chunks; simpl.
  - now rewrite app_nil_r.
  - destruct (IH (chunks ++ [c])) as [H1 [H2 H3]].
    rewrite H1, H2, H3, <- app_assoc. auto.
Qed.

(** The promise is rejected only by an ['error'] event that comes
    before any ['end']. *)
Lemma streamToString_rejected stream e :
  streamToString stream = Rejected e <->
  exists more rest, stream = map OnData more ++ OnError e :: rest.
Proof.
  unfold streamToString. generalize (@nil (list Byte.byte)) as chunks.
  split.
  - revert chunks.
    induction stream as [| [c | | e'] stream IH]; intros chunks H;
      simpl in H; try discriminate.
    + destruct (IH _ H) as [more [rest ->]]. now exists (c :: more), rest.
    + injection H as ->. now exists [], stream.
  - intros [more [rest ->]].
    now destruct (streamToString_from_end chunks more rest e) as [_ [H _]].
Qed.

(** [stream_error] is the first ['error'] of a stream that has not
    ended before it. *)
Lemma stream_error_spec stream e :
  stream_error stream = Some e <->
  exists more rest, stream = map OnData more ++ OnError e :: rest.
Proof.
  split.
  - induction stream as [| [c | | e'] stream IH]; simpl; intros H;
      try discriminate.
    + destruct (IH H) as [more [rest ->]]. now exists (c :: more), rest.
    + injection H as ->. now exists [], stream.
  - intros [more [rest ->]].
    induction more as [| c more IH]; simpl; [ reflexivity | exact IH ].
Qed.

(** A stream that reports an error makes [streamToString] reject with
    it. *)
Lemma stream_error_rejects stream e :
  stream_error stream = Some e -> streamToString stream = Rejected e.
Proof.
  intros H. apply streamToString_rejected. now apply stream_error_spec.
Qed.

(** C6, as the claim states it, fails: the single byte 0xFF is not
    valid UTF-8, and a stream that delivers it and ends makes
    [streamToString] resolve, with U+FFFD standing in for the
    byte. *)
Lemma invalid_utf8_is_replaced :
  utf8_valid [Byte.xff] = false
  /\ streamToString [OnData [Byte.xff]; OnEnd] = Resolved [REPLACEMENT].
Proof. split; reflexivity. Qed.

(** C6 (amended): invalid UTF-8 never makes [streamToString] fail.
    When the stream ends, the promise resolves with the lenient
    decoding of the chunks in arrival order, whatever the bytes, and
    that text holds U+FFFD unless the bytes are well-formed; the
    promise is rejected when the stream emits ['error'] before
    ['end'], and stays pending when the events stop short of
    both. *)
Theorem streamToString_decodes_leniently
    (chunks : list (list Byte.byte)) (rest : Readable) (e : Error) :
  streamToString (map OnData chunks ++ OnEnd :: rest)
  = Resolved (toString_utf8 (List.concat chunks))
  /\ (utf8_valid (List.concat chunks) = true
      \/ In REPLACEMENT (toString_utf8 (List.concat chunks)))
  /\ streamToString (map OnData chunks ++ OnError e :: rest) = Rejected e
  /\ streamToString (map OnData chunks) = Pending.
Proof.
  unfold streamToString.
  destruct (streamToString_from_end [] chunks rest e) as [H1 [H2 H3]].
  repeat split; trivial.
  apply lenient_decoding.
Qed.

(** Well-formed input decodes as expected: "h", U+00E9, U+20AC and
    U+1F600. *)
Example toString_utf8_valid :
  toString_utf8 [Byte.x68; Byte.xc3; Byte.xa9; Byte.xe2; Byte.x82; Byte.xac;
                 Byte.xf0; Byte.x9f; Byte.x98; Byte.x80]
  = [104; 233; 8364; 128512]%N.
Proof. reflexivity. Qed.

End Stream.

(* ===================================================================== *)
(** * Properties of the listing action *)
(* ===================================================================== *)

Section Orchestrator.

Context {World : Type}.
Variable client : ImapFlow World.

(** ** Rules for [ret] and [bind] *)

Lemma meets_ret (A : Type) (a : A) (Q : Outcome A -> list Event -> Prop) :
  Q (Returned a) [] -> meets (@ret World A a) Q.
Proof.
  intros HQ w log. exists []. simpl. now rewrite app_nil_r.
Qed.

Lemma meets_bind (A B : Type) (m : @Async World A) (k : A -> @Async World B)
    (Q1 : Outcome A -> list Event -> Prop)
    (Q2 : A -> Outcome B -> list Event -> Prop)
    (Q : Outcome B -> list Event -> Prop) :
  meets m Q1 ->
  (forall a, meets (k a) (Q2 a)) ->
  (forall a l1 r l2, Q1 (Returned a) l1 -> Q2 a r l2 -> Q r (l1 ++ l2)) ->
  (forall e l1, Q1 (Thrown e) l1 -> Q (Thrown e) l1) ->
  (forall l1, Q1 Hangs l1 -> Q Hangs l1) ->
  (forall l1, Q1 OutOfFuel l1 -> Q OutOfFuel l1) ->
  meets (bind m k) Q.
Proof.
  intros Hm Hk Hret Hthrow Hhang Hfuel w log.
  destruct (Hm w log) as [l1 [E1 HQ1]].
  unfold bind.
  destruct (m (w, log)) as [r1 [w1 log1]]. simpl in E1, HQ1. subst log1.
  destruct r1 as [a | e | | ].
  - destruct (Hk a w1 (log ++ l1)) as [l2 [E2 HQ2]].
    exists (l1 ++ l2). rewrite E2, app_assoc. split; [reflexivity |].
    now apply Hret with (a := a).
  - exists l1. simpl. auto.
  - exists l1. simpl. auto.
  - exists l1. simpl. auto.
Qed.

Lemma meets_weaken (A : Type) (m : @Async World A)
    (Q Q' : Outcome A -> list Event -> Prop) :
  meets m Q -> (forall r l, Q r l -> Q' r l) -> meets m Q'.
Proof.
  intros Hm Himp w log. destruct (Hm w log) as [l [E HQ]].
  exists l. auto.
Qed.

Lemma meets_and (A : Type) (m : @Async World A)
    (Q Q' : Outcome A -> list Event -> Prop) :
  meets m Q -> meets m Q' -> meets m (fun r l => Q r l /\ Q' r l).
Proof.
  intros Hm Hm' w log.
  destruct (Hm w log) as [l [E HQ]]. destruct (Hm' w log) as [l' [E' HQ']].
  exists l. repeat split; trivial.
  rewrite E in E'. apply app_inv_head in E'. now subst l'.
Qed.

(** ** Failures abort the run *)

Lemma aborts_bind (A B : Type) (m : @Async World A)
    (k : A -> @Async World B) :
  meets m (@aborts_on_failure A) ->
  (forall a, meets (k a) (@aborts_on_failure B)) ->
  meets (bind m k) (@aborts_on_failure B).
Proof.
  intros Hm Hk.
  apply meets_bind with (Q1 := @aborts_on_failure A)
                        (Q2 := fun _ => @aborts_on_failure B);
    trivial.
  - intros a l1 r l2 H1 H2 ev e Hin Hf.
    apply in_app_or in Hin. destruct Hin as [Hin | Hin].
    + specialize (H1 ev e Hin Hf). discriminate.
    + now apply (H2 ev e).
  - intros e l1 H1 ev e' Hin Hf. specialize (H1 ev e' Hin Hf).
    injection H1 as ->. reflexivity.
  - intros l1 H1 ev e' Hin Hf. specialize (H1 ev e' Hin Hf). discriminate.
  - intros l1 H1 ev e' Hin Hf. specialize (H1 ev e' Hin Hf). discriminate.
Qed.

Lemma aborts_ret (A : Type) (a : A) :
  meets (@ret World A a) (@aborts_on_failure A).
Proof. apply meets_ret. intros ev e []. Qed.

Lemma aborts_mailboxOpen path readOnly :
  meets (await_mailboxOpen client path readOnly) (@aborts_on_failure unit).
Proof.
  intros w log. unfold await_mailboxOpen.
  destruct (mailboxOpen client path readOnly w) as [r w'].
  exists [EvMailboxOpen path readOnly r].
  destruct r as [e|]; simpl; (split; [reflexivity |]);
    intros ev e' [<- | []] Hf; simpl in Hf; congruence.
Qed.

Lemma aborts_next searchObject fetchQuery :
  meets (await_next client searchObject fetchQuery)
        (@aborts_on_failure (option FetchMessageObject)).
Proof.
  intros w log. unfold await_next.
  destruct (fetch_next client searchObject fetchQuery w) as [r w'].
  exists [EvFetchNext fetchQuery r].
  destruct r as [email | | e]; simpl; (split; [reflexivity |]);
    intros ev e' [<- | []] Hf; simpl in Hf; congruence.
Qed.

Lemma aborts_fetchAll fuel searchObject fetchQuery :
  forall emailsList,
    meets (fetchAll client fuel searchObject fetchQuery emailsList)
          (@aborts_on_failure (list FetchMessageObject)).
Proof.
  induction fuel as [| fuel IH]; intros emailsList; simpl.
  - intros w log. exists []. simpl. rewrite app_nil_r. split; [reflexivity |].
    intros ev e [].
  - apply aborts_bind; [apply aborts_next |].
    intros [email|]; [apply IH | apply aborts_ret].
Qed.

(** A download and the reading of its stream, taken together. *)
Lemma aborts_fetchContent include partId email store item_json :
  meets (fetchContent client include partId email store item_json)
        (@aborts_on_failure OutputRecord).
Proof.
  unfold fetchContent.
  destruct partId as [id|]; [ | apply aborts_ret ].
  destruct (include && truthy (Some id)); [ | apply aborts_ret ].
  intros w log. unfold bind, await_download, await_streamToString, ret.
  destruct (download client (uid_toString (uid email)) id true w)
    as [[content | e] w'] eqn:E.
  - exists [EvDownload (uid_toString (uid email)) id true (inl content)].
    destruct (streamToString content) as [str | e | ] eqn:Es; simpl;
      (split; [reflexivity |]);
      intros ev e' [<- | []] Hf; simpl in Hf;
      apply stream_error_rejects in Hf; rewrite Es in Hf; congruence.
  - exists [EvDownload (uid_toString (uid email)) id true (inr e)].
    simpl. split; [reflexivity |].
    intros ev e' [<- | []] Hf; simpl in Hf; congruence.
Qed.

Lemma aborts_processEmail a t h email :
  meets (processEmail client a t h email) (@aborts_on_failure OutputRecord).
Proof.
  unfold processEmail.
  destruct (t || h); [ | apply aborts_ret ].
  apply aborts_bind; [apply aborts_fetchContent |]. intros item1.
  apply aborts_bind; [apply aborts_fetchContent |]. intros item2.
  apply aborts_ret.
Qed.

Lemma aborts_processEmails a t h emailsList :
  forall returnData,
    meets (processEmails client a t h emailsList returnData)
          (@aborts_on_failure (list OutputRecord)).
Proof.
  induction emailsList as [| email emailsList IH]; intros returnData; simpl.
  - apply aborts_ret.
  - apply aborts_bind; [apply aborts_processEmail |]. intros item. apply IH.
Qed.

Lemma aborts_executeImapAction fuel mailboxPath searchObject includeParts :
  meets (executeImapAction client fuel mailboxPath searchObject includeParts)
        (@aborts_on_failure (list OutputRecord)).
Proof.
  unfold executeImapAction.
  apply aborts_bind; [apply aborts_mailboxOpen |]. intros _.
  apply aborts_bind; [apply aborts_fetchAll |]. intros emailsList.
  apply aborts_processEmails.
Qed.

(** The log of a run is what the action appended to the empty log. *)
Lemma run_meets fuel mailboxPath searchObject includeParts
    (Q : Outcome (list OutputRecord) -> list Event -> Prop) w :
  meets (executeImapAction client fuel mailboxPath searchObject includeParts) Q ->
  Q (fst (run client fuel mailboxPath searchObject includeParts w))
    (snd (run client fuel mailboxPath searchObject includeParts w)).
Proof.
  intros Hm. destruct (Hm w []) as [added [E HQ]]. unfold run.
  destruct (executeImapAction client fuel mailboxPath searchObject
              includeParts (w, [])) as [r [w' log']].
  simpl in *. now subst log'.
Qed.

(** ** The calls a run makes, and their order *)

Lemma forall_bind (A B : Type) (P : Event -> Prop) (m : @Async World A)
    (k : A -> @Async World B) :
  meets m (fun _ l => Forall P l) ->
  (forall a, meets (k a) (fun _ l => Forall P l)) ->
  meets (bind m k) (fun _ l => Forall P l).
Proof.
  intros Hm Hk.
  apply meets_bind with (Q1 := fun _ l => Forall P l)
                        (Q2 := fun _ _ l => Forall P l); trivial.
  intros a l1 r l2 H1 H2. apply Forall_app. now split.
Qed.

Lemma forall_ret (A : Type) (P : Event -> Prop) (a : A) :
  meets (@ret World A a) (fun _ l => Forall P l).
Proof. apply meets_ret. constructor. Qed.

Lemma shape_next searchObject fetchQuery :
  meets (await_next client searchObject fetchQuery)
        (fun r added =>
           exists res, added = [EvFetchNext fetchQuery res]
                       /\ (r = Returned None -> res = IterDone)).
Proof.
  intros w log. unfold await_next.
  destruct (fetch_next client searchObject fetchQuery w) as [res w'].
  exists [EvFetchNext fetchQuery res].
  destruct res as [email | | e]; simpl; (split; [reflexivity |]);
    eexists; (split; [reflexivity |]); intros H; congruence.
Qed.

Lemma shape_fetchAll fuel searchObject fetchQuery :
  forall emailsList,
    meets (fetchAll client fuel searchObject fetchQuery emailsList)
          (@fetch_calls fetchQuery (list FetchMessageObject)).
Proof.
  induction fuel as [| fuel IH]; intros emailsList; simpl.
  - intros w log. exists []. simpl. rewrite app_nil_r.
    split; [reflexivity |]. split; [constructor | discriminate].
  - eapply meets_bind with
      (Q2 := fun a r added =>
               match a with
               | Some _ => fetch_calls fetchQuery r added
               | None => added = []
               end).
    + apply shape_next.
    + intros [email|]; [apply IH |]. now apply meets_ret.
    + intros [email|] l1 r l2 [res [-> Hres]] H2.
      * destruct H2 as [Hall Hlast]. split.
        -- constructor; [now exists res | exact Hall].
        -- intros l Hr. destruct (Hlast l Hr) as [before ->].
           now exists (EvFetchNext fetchQuery res :: before).
      * subst l2. rewrite (Hres eq_refl). split.
        -- repeat constructor. now exists IterDone.
        -- intros _ _. now exists [].
    + intros e l1 [res [-> _]]. split; [ | discriminate ].
      repeat constructor. now exists res.
    + intros l1 [res [-> _]]. split; [ | discriminate ].
      repeat constructor. now exists res.
    + intros l1 [res [-> _]]. split; [ | discriminate ].
      repeat constructor. now exists res.
Qed.

(** A guarded download makes at most one call, a download, and none
    when its flag is off. *)
Lemma shape_fetchContent include partId email store item_json :
  meets (fetchContent client include partId email store item_json)
        (fun _ added =>
           Forall (fun ev => is_download ev = true /\ include = true) added).
Proof.
  unfold fetchContent.
  destruct partId as [id|]; [ | apply forall_ret ].
  destruct include; simpl; [ | apply forall_ret ].
  destruct (negb (id =? EmptyString)%string); [ | apply forall_ret ].
  intros w log. unfold bind, await_download, await_streamToString, ret.
  destruct (download client (uid_toString (uid email)) id true w)
    as [[content | e] w'].
  - exists [EvDownload (uid_toString (uid email)) id true (inl content)].
    destruct (streamToString content); simpl; split; trivial;
      repeat constructor.
  - exists [EvDownload (uid_toString (uid email)) id true (inr e)].
    simpl. split; trivial. repeat constructor.
Qed.

Lemma shape_processEmail a t h email :
  meets (processEmail client a t h email)
        (fun _ added =>
           Forall (fun ev => is_download ev = true /\ t || h = true) added).
Proof.
  unfold processEmail.
  destruct (t || h) eqn:E; [ | apply forall_ret ].
  apply forall_bind.
  { eapply meets_weaken; [apply shape_fetchContent |].
    intros r l Hl. simpl in Hl. eapply Forall_impl; [ | exact Hl ].
    simpl. intuition. }
  intros item1. apply forall_bind; [ | intros; apply forall_ret ].
  eapply meets_weaken; [apply shape_fetchContent |].
  intros r l Hl. simpl in Hl. eapply Forall_impl; [ | exact Hl ].
  simpl. intuition.
Qed.

Lemma shape_processEmails a t h emailsList :
  forall returnData,
    meets (processEmails client a t h emailsList returnData)
          (@download_calls t h (list OutputRecord)).
Proof.
  intros returnData.
  apply meets_weaken with
    (Q := fun _ added =>
            Forall (fun ev => is_download ev = true /\ t || h = true) added).
  - revert returnData.
    induction emailsList as [| email emailsList IH]; intros returnData; simpl.
    + apply forall_ret.
    + apply forall_bind; [apply shape_processEmail | intros; apply IH].
  - intros r l Hl. split.
    + eapply Forall_impl; [ | exact Hl ]. simpl. intuition.
    + intros Hoff. destruct l as [| ev l]; [reflexivity |].
      inversion Hl as [| ? ? [_ Hon] _]. congruence.
Qed.

Lemma shape_executeImapAction fuel mailboxPath searchObject includeParts :
  meets (executeImapAction client fuel mailboxPath searchObject includeParts)
        (fun _ added => run_shape includeParts added).
Proof.
  unfold executeImapAction.
  set (q := buildFetchQuery includeParts).
  set (t := includes includeParts EmailParts.TextContent).
  set (h := includes includeParts EmailParts.HtmlContent).
  eapply meets_bind with
    (Q1 := fun _ added => exists res, added = [EvMailboxOpen mailboxPath true res])
    (Q2 := fun _ _ added =>
             exists fetches downloads,
               added = fetches ++ downloads
               /\ Forall (fun ev => exists res, ev = EvFetchNext q res) fetches
               /\ Forall (fun ev => is_download ev = true) downloads
               /\ (downloads <> [] ->
                     exists before, fetches = before ++ [EvFetchNext q IterDone])
               /\ (t || h = false -> downloads = [])).
  - intros w log. unfold await_mailboxOpen.
    destruct (mailboxOpen client mailboxPath true w) as [res w'].
    exists [EvMailboxOpen mailboxPath true res].
    destruct res; simpl; split; trivial; now eexists.
  - intros _.
    eapply meets_bind with (Q1 := @fetch_calls q (list FetchMessageObject))
                           (Q2 := fun _ => @download_calls t h (list OutputRecord)).
    + apply shape_fetchAll.
    + intros emailsList. apply shape_processEmails.
    + intros emailsList l1 r l2 [Hf Hlast] [Hd Hoff].
      exists l1, l2. repeat split; trivial.
      intros _. exact (Hlast emailsList eq_refl).
    + intros e l1 [Hf _]. exists l1, []. rewrite app_nil_r.
      repeat split; trivial. intros H; now elim H.
    + intros l1 [Hf _]. exists l1, []. rewrite app_nil_r.
      repeat split; trivial. intros H; now elim H.
    + intros l1 [Hf _]. exists l1, []. rewrite app_nil_r.
      repeat split; trivial. intros H; now elim H.
  - intros [] l1 r l2 [res ->]
      [fetches [downloads [-> [Hf [Hd [Hlast Hoff]]]]]].
    exists (EvMailboxOpen mailboxPath true res), fetches, downloads.
    repeat split; trivial.
  - intros e l1 [res ->].
    exists (EvMailboxOpen mailboxPath true res), [], [].
    repeat split; trivial. intros H; now elim H.
  - intros l1 [res ->].
    exists (EvMailboxOpen mailboxPath true res), [], [].
    repeat split; trivial. intros H; now elim H.
  - intros l1 [res ->].
    exists (EvMailboxOpen mailboxPath true res), [], [].
    repeat split; trivial. intros H; now elim H.
Qed.

(** ** The records a run returns *)

Lemma meets_bind_ret (A : Type) (m : @Async World A)
    (Q : Outcome A -> list Event -> Prop) :
  meets m Q -> meets (bind m (fun x => ret x)) Q.
Proof.
  intros Hm w log. destruct (Hm w log) as [l [E HQ]]. exists l.
  unfold bind, ret. destruct (m (w, log)) as [[a | e | | ] s]; auto.
Qed.

Lemma value_fetchContent include partId email store item_json :
  meets (fetchContent client include partId email store item_json)
        (fun r _ => forall item, r = Returned item ->
           item = item_json
           \/ (include = true /\ truthy partId = true
               /\ exists str, item = store item_json str)).
Proof.
  unfold fetchContent.
  destruct partId as [id|];
    [ | apply meets_ret; intros item [= <-]; now left ].
  destruct (include && truthy (Some id)) eqn:E;
    [ | apply meets_ret; intros item [= <-]; now left ].
  apply andb_true_iff in E. destruct E as [Hi Ht].
  intros w log. unfold bind, await_download, await_streamToString, ret.
  destruct (download client (uid_toString (uid email)) id true w)
    as [[content | e] w'].
  - exists [EvDownload (uid_toString (uid email)) id true (inl content)].
    destruct (streamToString content) as [str | e | ]; simpl;
      (split; [reflexivity |]); intros item [= <-].
    right. repeat split; trivial. now exists str.
  - exists [EvDownload (uid_toString (uid email)) id true (inr e)].
    simpl. split; [reflexivity | discriminate].
Qed.

Lemma value_processEmail a t h email :
  meets (processEmail client a t h email)
        (fun r _ => forall item, r = Returned item ->
           json item = email /\ record_fields a t h item).
Proof.
  unfold processEmail.
  set (an := analyze (a || t || h) (bodyStructure email)).
  set (item0 := if a then _ else _).
  assert (H0 : json item0 = email) by (unfold item0; now destruct a).
  assert (Ha : out_attachmentsInfo item0
               = if a then Some (attachmentsInfo an) else None)
    by (unfold item0; now destruct a).
  assert (Ht : out_textContent item0 = None) by (unfold item0; now destruct a).
  assert (Hh : out_htmlContent item0 = None) by (unfold item0; now destruct a).
  clearbody item0.
  destruct (t || h) eqn:E.
  - assert (Hon : a || t || h = true)
      by (rewrite <- orb_assoc, E; apply orb_true_r).
    assert (Han : an = analyze true (bodyStructure email))
      by (unfold an; now rewrite Hon).
    clearbody an. subst an.
    eapply meets_bind with
      (Q2 := fun item1 r _ => forall item, r = Returned item ->
               item = item1
               \/ (h = true
                   /\ truthy (htmlPartId (analyze true (bodyStructure email)))
                      = true
                   /\ exists str, item = with_htmlContent item1 str)).
    + apply value_fetchContent.
    + intros item1. apply meets_bind_ret. apply value_fetchContent.
    + intros item1 l1 r l2 H1 H2 item Hr.
      specialize (H1 item1 eq_refl). specialize (H2 item Hr).
      unfold record_fields.
      destruct H1 as [-> | [Ht1 [Ht2 [str1 ->]]]];
        destruct H2 as [-> | [Hh1 [Hh2 [str2 ->]]]]; simpl;
        rewrite ?H0, ?Ha, ?Ht, ?Hh; repeat split; auto;
        intros Habs; now elim Habs.
    + discriminate.
    + discriminate.
    + discriminate.
  - apply orb_false_iff in E. destruct E as [-> ->].
    apply meets_ret. intros item [= <-]. split; [exact H0 |].
    unfold record_fields. rewrite H0, Ht, Hh.
    split; [ | split; intros Habs; now elim Habs ].
    rewrite Ha. unfold an. now destruct a.
Qed.

Lemma value_processEmails a t h emailsList :
  forall returnData,
    meets (processEmails client a t h emailsList returnData)
          (fun r _ => forall items, r = Returned items ->
             exists new, items = returnData ++ new
                         /\ map json new = emailsList
                         /\ Forall (record_fields a t h) new).
Proof.
  induction emailsList as [| email emailsList IH]; intros returnData; simpl.
  - apply meets_ret. intros items [= <-]. exists [].
    rewrite app_nil_r. repeat split; constructor.
  - eapply meets_bind with
      (Q2 := fun item r _ => forall items, r = Returned items ->
               exists new, items = (returnData ++ [item]) ++ new
                           /\ map json new = emailsList
                           /\ Forall (record_fields a t h) new).
    + apply value_processEmail.
    + intros item. apply IH.
    + intros item l1 r l2 H1 H2 items Hr.
      destruct (H1 item eq_refl) as [Hj Hrec].
      destruct (H2 items Hr) as [new [-> [Hmap Hall]]].
      exists (item :: new). rewrite <- app_assoc. simpl.
      repeat split; [ now rewrite Hj, Hmap | now constructor ].
    + discriminate.
    + discriminate.
    + discriminate.
Qed.

Lemma value_executeImapAction fuel mailboxPath searchObject includeParts :
  meets (executeImapAction client fuel mailboxPath searchObject includeParts)
        (fun r _ => forall items, r = Returned items ->
           Forall (record_fields
                     (includes includeParts EmailParts.AttachmentsInfo)
                     (includes includeParts EmailParts.TextContent)
                     (includes includeParts EmailParts.HtmlContent)) items).
Proof.
  unfold executeImapAction.
  set (a := includes includeParts EmailParts.AttachmentsInfo).
  set (t := includes includeParts EmailParts.TextContent).
  set (h := includes includeParts EmailParts.HtmlContent).
  eapply meets_bind with
    (Q1 := fun _ _ => True)
    (Q2 := fun _ r _ => forall items, r = Returned items ->
             Forall (record_fields a t h) items);
    try discriminate.
  - intros w log. unfold await_mailboxOpen.
    destruct (mailboxOpen client mailboxPath true w) as [res w'].
    exists [EvMailboxOpen mailboxPath true res].
    now destruct res.
  - intros u.
    eapply meets_bind with
      (Q1 := fun _ _ => True)
      (Q2 := fun _ r _ => forall items, r = Returned items ->
               Forall (record_fields a t h) items);
      try discriminate.
    + eapply meets_weaken; [apply shape_fetchAll | trivial].
    + intros emailsList.
      eapply meets_weaken; [apply value_processEmails |].
      intros r l H items Hr.
      destruct (H items Hr) as [new [-> [_ Hall]]]. exact Hall.
    + intros emailsList l1 r l2 _ H2. exact H2.
  - intros u l1 r l2 _ H2. exact H2.
Qed.

(** ** Fuel *)

(** A bulk fetch that finished within its bound does the same with
    any larger bound. *)
Lemma fetchAll_fuel fuel searchObject fetchQuery :
  forall emailsList s fuel',
    fst (fetchAll client fuel searchObject fetchQuery emailsList s)
      <> OutOfFuel ->
    fuel <= fuel' ->
    fetchAll client fuel' searchObject fetchQuery emailsList s
    = fetchAll client fuel searchObject fetchQuery emailsList s.
Proof.
  induction fuel as [| fuel IH]; intros emailsList s fuel' Hend Hle.
  - simpl in Hend. now elim Hend.
  - destruct fuel' as [| fuel']; [ lia | ].
    simpl in *. unfold bind in *.
    destruct (await_next client searchObject fetchQuery s)
      as [[[email|] | e | | ] s1]; trivial.
    apply IH; [exact Hend | lia].
Qed.

Lemma executeImapAction_fuel fuel fuel' mailboxPath searchObject
    includeParts s :
  fst (executeImapAction client fuel mailboxPath searchObject includeParts s)
    <> OutOfFuel ->
  fuel <= fuel' ->
  executeImapAction client fuel' mailboxPath searchObject includeParts s
  = executeImapAction client fuel mailboxPath searchObject includeParts s.
Proof.
  unfold executeImapAction, bind. intros Hend Hle.
  destruct (await_mailboxOpen client mailboxPath true s)
    as [[[] | e | | ] s1]; trivial.
  destruct (fetchAll client fuel searchObject (buildFetchQuery includeParts)
              [] s1) as [r s2] eqn:E.
  rewrite fetchAll_fuel with (fuel := fuel); trivial.
  - now rewrite E.
  - rewrite E. simpl. destruct r; try discriminate. now elim Hend.
Qed.

(** The processing of the fetched messages is bounded by their
    number and needs no fuel. *)
Lemma fuel_free_bind (A B : Type) (m : @Async World A)
    (k : A -> @Async World B) :
  meets m (fun r _ => r <> OutOfFuel) ->
  (forall a, meets (k a) (fun r _ => r <> OutOfFuel)) ->
  meets (bind m k) (fun r _ => r <> OutOfFuel).
Proof.
  intros Hm Hk.
  apply meets_bind with (Q1 := fun r _ => r <> OutOfFuel)
                        (Q2 := fun _ r _ => r <> OutOfFuel);
    trivial; try discriminate.
  intros l1 H. now elim H.
Qed.

Lemma fuel_free_fetchContent include partId email store item_json :
  meets (fetchContent client include partId email store item_json)
        (fun r _ => r <> OutOfFuel).
Proof.
  unfold fetchContent.
  destruct partId as [id|]; [ | now apply meets_ret ].
  destruct (include && truthy (Some id)); [ | now apply meets_ret ].
  intros w log. unfold bind, await_download, await_streamToString, ret.
  destruct (download client (uid_toString (uid email)) id true w)
    as [[content | e] w'].
  - exists [EvDownload (uid_toString (uid email)) id true (inl content)].
    destruct (streamToString content); simpl; split; trivial; discriminate.
  - exists [EvDownload (uid_toString (uid email)) id true (inr e)].
    simpl. split; trivial; discriminate.
Qed.

Lemma fuel_free_processEmails a t h emailsList :
  forall returnData s,
    fst (processEmails client a t h emailsList returnData s) <> OutOfFuel.
Proof.
  assert (H : forall returnData,
             meets (processEmails client a t h emailsList returnData)
                   (fun r _ => r <> OutOfFuel)).
  { induction emailsList as [| email emailsList IH]; intros returnData; simpl.
    - now apply meets_ret.
    - apply fuel_free_bind; [ | intros; apply IH ].
      unfold processEmail. destruct (t || h); [ | now apply meets_ret ].
      apply fuel_free_bind; [ apply fuel_free_fetchContent | intros ].
      apply fuel_free_bind; [ apply fuel_free_fetchContent | intros ].
      now apply meets_ret. }
  intros returnData [w log]. destruct (H returnData w log) as [l [_ HQ]].
  exact HQ.
Qed.

(** ** The retrieval descriptor *)

Lemma buildFetchQuery_fields includeParts :
  buildFetchQuery includeParts
  = {| fq_uid := true;
       fq_envelope := true;
       fq_bodyStructure :=
         includes includeParts EmailParts.BodyStructure
         || includes includeParts EmailParts.AttachmentsInfo
         || (includes includeParts EmailParts.TextContent
             || includes includeParts EmailParts.HtmlContent);
       fq_flags := includes includeParts EmailParts.Flags;
       fq_size := includes includeParts EmailParts.Size |}.
Proof.
  unfold buildFetchQuery.
  destruct (includes includeParts EmailParts.BodyStructure),
           (includes includeParts EmailParts.Flags),
           (includes includeParts EmailParts.Size),
           (includes includeParts EmailParts.AttachmentsInfo),
           (includes includeParts EmailParts.TextContent),
           (includes includeParts EmailParts.HtmlContent); reflexivity.
Qed.

(** C9: the descriptor built for the bulk fetch always asks for
    [uid] and [envelope], and asks for [bodyStructure] as soon as
    attachments info, text content or HTML content is included,
    whether or not the body structure itself is. *)
Theorem fetchQuery_requests (includeParts : list string) :
  fq_uid (buildFetchQuery includeParts) = true
  /\ fq_envelope (buildFetchQuery includeParts) = true
  /\ (includes includeParts EmailParts.AttachmentsInfo
      || includes includeParts EmailParts.TextContent
      || includes includeParts EmailParts.HtmlContent = true ->
      fq_bodyStructure (buildFetchQuery includeParts) = true).
Proof.
  rewrite buildFetchQuery_fields. simpl. repeat split.
  destruct (includes includeParts EmailParts.BodyStructure),
           (includes includeParts EmailParts.AttachmentsInfo),
           (includes includeParts EmailParts.TextContent),
           (includes includeParts EmailParts.HtmlContent);
    simpl; intros H; congruence.
Qed.

(** ** Order of the calls *)

(** An element that has a property no element of [pre] has lies in
    the other part of [pre ++ suf]. *)
Lemma split_in_suffix (A : Type) (P : A -> Prop) (pre suf : list A) :
  forall before x after,
    pre ++ suf = before ++ x :: after ->
    Forall (fun y => ~ P y) pre -> P x ->
    exists mid, suf = mid ++ x :: after /\ before = pre ++ mid.
Proof.
  induction pre as [| y pre IH]; intros before x after E Hpre Hx.
  - now exists before.
  - inversion Hpre as [| ? ? Hy Hpre']; subst.
    destruct before as [| b before]; simpl in E.
    + injection E as -> _. contradiction.
    + injection E as -> E.
      destruct (IH before x after E Hpre' Hx) as [mid [-> ->]].
      now exists mid.
Qed.

Lemma run_shape_split includeParts log before ev after :
  run_shape includeParts log ->
  log = before ++ ev :: after ->
  is_download ev = true ->
  exists opened fetches mid,
    before = opened :: (fetches ++ [EvFetchNext (buildFetchQuery includeParts)
                                                IterDone]) ++ mid
    /\ Forall (fun ev' => is_download ev' = true) after
    /\ includes includeParts EmailParts.TextContent
       || includes includeParts EmailParts.HtmlContent = true.
Proof.
  intros [opened [fetches [downloads [-> [Ho [_ [Hf [Hd [Hlast Hoff]]]]]]]]] E Hev.
  destruct (@split_in_suffix Event (fun x => is_download x = true)
              (opened :: fetches) downloads before ev after)
    as [mid [-> ->]]; trivial.
  { constructor; [ congruence | ].
    eapply Forall_impl; [ | exact Hf ].
    intros x [res ->]. discriminate. }
  destruct Hlast as [b ->]; [ now destruct mid | ].
  exists opened, b, mid. repeat split.
  - apply Forall_app in Hd. destruct Hd as [_ Hd].
    now inversion Hd.
  - destruct (includes includeParts EmailParts.TextContent
              || includes includeParts EmailParts.HtmlContent);
      [ reflexivity | ].
    specialize (Hoff eq_refl). now destruct mid.
Qed.

(** C3: in every run, a download is requested only after the bulk
    fetch has been read to its end: whenever a download appears in
    the log of calls, the [next()] that reported the end of the
    generator comes before it, and no [next()] comes after it. *)
Theorem downloads_follow_bulk_fetch
    (fuel : nat) (mailboxPath : string) (searchObject : SearchObject)
    (includeParts : list string) (w : World)
    (before : list Event) (ev : Event) (after : list Event) :
  snd (run client fuel mailboxPath searchObject includeParts w)
  = before ++ ev :: after ->
  is_download ev = true ->
  (exists finished, In finished before /\ is_fetch_done finished = true)
  /\ (forall ev', In ev' after -> is_fetch_next ev' = false).
Proof.
  intros E Hev.
  pose proof (run_meets w
                (shape_executeImapAction fuel mailboxPath searchObject
                   includeParts)) as Hshape.
  simpl in Hshape.
  destruct (@run_shape_split _ _ _ _ _ Hshape E Hev)
    as [opened [fetches [mid [-> [Hafter _]]]]].
  split.
  - exists (EvFetchNext (buildFetchQuery includeParts) IterDone).
    split; [ | reflexivity ].
    right. apply in_or_app. left. apply in_or_app. right. now left.
  - intros ev' Hin.
    rewrite Forall_forall in Hafter. specialize (Hafter ev' Hin).
    now destruct ev'.
Qed.

(** C4: an error of the transport at any point (the opening of the
    mailbox, a [next()] of the bulk fetch, a download, or the stream
    of a downloaded part) aborts the run with that error: the action
    does not return, so no list of records comes out, however many
    messages were handled before. *)
Theorem failure_aborts_listing
    (fuel : nat) (mailboxPath : string) (searchObject : SearchObject)
    (includeParts : list string) (w : World) (ev : Event) (e : Error) :
  In ev (snd (run client fuel mailboxPath searchObject includeParts w)) ->
  failure_of ev = Some e ->
  fst (run client fuel mailboxPath searchObject includeParts w) = Thrown e
  /\ forall records,
       fst (run client fuel mailboxPath searchObject includeParts w)
       <> Returned records.
Proof.
  intros Hin Hf.
  pose proof (run_meets w
                (aborts_executeImapAction fuel mailboxPath searchObject
                   includeParts) ev e Hin Hf) as Hr.
  split; [ exact Hr | ]. intros records. rewrite Hr. discriminate.
Qed.

(** C5 (amended): when none of attachments info, text content and
    HTML content is included, no run requests a download, and every
    call of the bulk fetch asks for [bodyStructure] exactly when the
    body structure itself is included. *)
Theorem no_content_no_download
    (fuel : nat) (mailboxPath : string) (searchObject : SearchObject)
    (includeParts : list string) (w : World) :
  includes includeParts EmailParts.AttachmentsInfo = false ->
  includes includeParts EmailParts.TextContent = false ->
  includes includeParts EmailParts.HtmlContent = false ->
  (forall ev,
      In ev (snd (run client fuel mailboxPath searchObject includeParts w)) ->
      is_download ev = false)
  /\ (forall fetchQuery res,
        In (EvFetchNext fetchQuery res)
           (snd (run client fuel mailboxPath searchObject includeParts w)) ->
        fq_bodyStructure fetchQuery
        = includes includeParts EmailParts.BodyStructure).
Proof.
  intros Ha Ht Hh.
  pose proof (run_meets w
                (shape_executeImapAction fuel mailboxPath searchObject
                   includeParts)) as Hshape.
  simpl in Hshape.
  destruct Hshape
    as [opened [fetches [downloads [-> [Ho [Ho' [Hf [Hd [Hlast Hoff]]]]]]]]].
  rewrite Ht, Hh in Hoff. rewrite (Hoff eq_refl), app_nil_r.
  rewrite Forall_forall in Hf.
  split.
  - intros ev [<- | Hin]; [ exact Ho | ].
    destruct (Hf ev Hin) as [res ->]. reflexivity.
  - intros fetchQuery res [E | Hin].
    + rewrite E in Ho'. discriminate.
    + destruct (Hf _ Hin) as [res' [= -> _]].
      rewrite buildFetchQuery_fields. simpl. rewrite Ha, Ht, Hh.
      now rewrite !orb_false_r.
Qed.

(** C5, as the claim states it, fails: with only the body structure
    included, none of the three content flags is set and the
    descriptor asks for [bodyStructure]. *)
Lemma bodyStructure_flag_requests_it :
  includes [EmailParts.BodyStructure] EmailParts.AttachmentsInfo = false
  /\ includes [EmailParts.BodyStructure] EmailParts.TextContent = false
  /\ includes [EmailParts.BodyStructure] EmailParts.HtmlContent = false
  /\ fq_bodyStructure (buildFetchQuery [EmailParts.BodyStructure]) = true.
Proof. repeat split. Qed.

(** C10: in the records a run returns, [attachmentsInfo] is there
    whenever attachments info is included, as the list of the
    attachment descriptors of the message, which is empty for a
    message without body structure or without attachment leaves;
    [textContent] and [htmlContent] are there only when their flag is
    set and the classification found a non-empty part id for
    them. *)
Theorem record_derived_fields
    (fuel : nat) (mailboxPath : string) (searchObject : SearchObject)
    (includeParts : list string) (w : World)
    (records : list OutputRecord) (item : OutputRecord) :
  fst (run client fuel mailboxPath searchObject includeParts w)
  = Returned records ->
  In item records ->
  (includes includeParts EmailParts.AttachmentsInfo = true ->
     out_attachmentsInfo item
     = Some match bodyStructure (json item) with
            | Some bs =>
                map attachmentOf
                  (filter is_attachment (getEmailPartsInfoRecursive bs))
            | None => []
            end)
  /\ (forall str, out_textContent item = Some str ->
        includes includeParts EmailParts.TextContent = true
        /\ exists id,
             textPartId (analyze true (bodyStructure (json item))) = Some id
             /\ id <> EmptyString)
  /\ (forall str, out_htmlContent item = Some str ->
        includes includeParts EmailParts.HtmlContent = true
        /\ exists id,
             htmlPartId (analyze true (bodyStructure (json item))) = Some id
             /\ id <> EmptyString).
Proof.
  intros Hr Hin.
  pose proof (run_meets w
                (value_executeImapAction fuel mailboxPath searchObject
                   includeParts) records Hr) as Hall.
  rewrite Forall_forall in Hall.
  destruct (Hall item Hin) as [Hatt [Htext Hhtml]].
  assert (Htruthy : forall x, truthy x = true ->
                              exists id, x = Some id /\ id <> EmptyString).
  { intros [id|] H; simpl in H; [ | discriminate ].
    exists id. split; [ reflexivity | ].
    intros ->. discriminate. }
  split; [ | split ].
  - intros Ha. rewrite Hatt, Ha. f_equal. simpl.
    destruct (bodyStructure (json item)) as [bs|]; [ | reflexivity ].
    apply classify_attachments.
  - intros str Hs. destruct Htext as [Hflag Hid]; [ congruence | ].
    split; [ exact Hflag | now apply Htruthy ].
  - intros str Hs. destruct Hhtml as [Hflag Hid]; [ congruence | ].
    split; [ exact Hflag | now apply Htruthy ].
Qed.

End Orchestrator.

(* ===================================================================== *)
(** * The properties on concrete runs *)
(* ===================================================================== *)

Section Runs.

(** With the scripted client the bulk fetch ends within one [next()]
    more than the script holds answers, so a run with that much fuel
    never stops for lack of it. *)
Lemma scripted_fetchAll_ends fuel searchObject fetchQuery :
  forall script emailsList log,
    List.length (sc_fetch script) < fuel ->
    fst (fetchAll scripted fuel searchObject fetchQuery emailsList
           (script, log)) <> OutOfFuel.
Proof.
  induction fuel as [| fuel IH]; intros script emailsList log Hlen; [ lia | ].
  destruct script as [answers downloads]. simpl in Hlen.
  simpl. unfold bind, await_next. simpl.
  destruct answers as [| [email | | e] answers]; simpl; try discriminate.
  apply IH. simpl in *. lia.
Qed.

Lemma scripted_run_ends fuel mailboxPath searchObject includeParts script :
  List.length (sc_fetch script) < fuel ->
  fst (run scripted fuel mailboxPath searchObject includeParts script)
  <> OutOfFuel.
Proof.
  intros Hlen. unfold run, executeImapAction, bind. simpl.
  pose proof (@scripted_fetchAll_ends fuel searchObject
                (buildFetchQuery includeParts) script []
                [EvMailboxOpen mailboxPath true None] Hlen) as Hend.
  destruct (fetchAll scripted fuel searchObject (buildFetchQuery includeParts)
              [] (script, [EvMailboxOpen mailboxPath true None]))
    as [[emailsList | e | | ] s]; simpl in *; try discriminate.
  - pose proof (@fuel_free_processEmails Script scripted
                  (includes includeParts EmailParts.AttachmentsInfo)
                  (includes includeParts EmailParts.TextContent)
                  (includes includeParts EmailParts.HtmlContent)
                  emailsList [] s) as Hp.
    destruct (processEmails scripted _ _ _ emailsList [] s) as [r s'].
    exact Hp.
  - now elim Hend.
Qed.

Lemma fetchQuery_requests_witness :
  includes [EmailParts.HtmlContent] EmailParts.AttachmentsInfo
  || includes [EmailParts.HtmlContent] EmailParts.TextContent
  || includes [EmailParts.HtmlContent] EmailParts.HtmlContent = true
  /\ fq_uid (buildFetchQuery [EmailParts.HtmlContent]) = true
  /\ fq_envelope (buildFetchQuery [EmailParts.HtmlContent]) = true
  /\ fq_bodyStructure (buildFetchQuery [EmailParts.HtmlContent]) = true.
Proof.
  destruct (fetchQuery_requests [EmailParts.HtmlContent]) as [Hu [He Hb]].
  split; [ reflexivity | ].
  split; [ exact Hu | split; [ exact He | apply Hb; reflexivity ] ].
Defined.

(** The calls of [Samples.contentRun]: the mailbox is opened, the
    generator is read to its end in three [next()] calls, and the
    three downloads follow. *)
Example contentRun_calls :
  map is_fetch_next (snd Samples.contentRun)
    = [false; true; true; true; false; false; false]
  /\ map is_download (snd Samples.contentRun)
    = [false; false; false; false; true; true; true]
  /\ map is_fetch_done (snd Samples.contentRun)
    = [false; false; false; true; false; false; false].
Proof. repeat split. Qed.

Lemma downloads_follow_bulk_fetch_witness :
  snd Samples.contentRun
  = firstn 4 (snd Samples.contentRun)
      ++ Samples.firstDownload :: skipn 5 (snd Samples.contentRun)
  /\ is_download Samples.firstDownload = true
  /\ (exists finished,
         In finished (firstn 4 (snd Samples.contentRun))
         /\ is_fetch_done finished = true)
  /\ (forall ev', In ev' (skipn 5 (snd Samples.contentRun)) ->
                  is_fetch_next ev' = false).
Proof.
  split; [ reflexivity | ]. split; [ reflexivity | ].
  apply (@downloads_follow_bulk_fetch Script scripted 5 "INBOX" "ALL"
           [EmailParts.TextContent; EmailParts.HtmlContent]
           Samples.twoMessages
           (firstn 4 (snd Samples.contentRun))
           Samples.firstDownload
           (skipn 5 (snd Samples.contentRun)));
    reflexivity.
Defined.

(** The stream of the third of five content downloads emits a chunk
    and then ['error']: the run is aborted with the error of the
    transport and returns nothing, although two messages had been
    handled. *)
Lemma failure_aborts_listing_witness :
  nth_error (snd Samples.breakingRun) 9 = Some Samples.brokenDownload
  /\ failure_of Samples.brokenDownload = Some "ECONNRESET"
  /\ fst Samples.breakingRun = Thrown "ECONNRESET"
  /\ forall records, fst Samples.breakingRun <> Returned records.
Proof.
  split; [ reflexivity | ]. split; [ reflexivity | ].
  apply (@failure_aborts_listing Script scripted 10 "INBOX" "ALL"
           [EmailParts.TextContent] Samples.thirdBreaks
           Samples.brokenDownload "ECONNRESET").
  - apply (@nth_error_In _ _ 9). reflexivity.
  - reflexivity.
Defined.

(** Before the failure, two of the five messages had been handled. *)
Example breakingRun_downloads :
  map is_download (snd Samples.breakingRun)
  = [false; false; false; false; false; false; false; true; true; true].
Proof. reflexivity. Qed.

(** The same when the third download itself is rejected. *)
Example failingRun_downloads :
  nth_error (snd Samples.failingRun) 9 = Some Samples.rejectedDownload
  /\ failure_of Samples.rejectedDownload = Some "ECONNRESET"
  /\ fst Samples.failingRun = Thrown "ECONNRESET"
  /\ map is_download (snd Samples.failingRun)
     = [false; false; false; false; false; false; false; true; true; true].
Proof. repeat split. Qed.

Lemma no_content_no_download_witness :
  includes [EmailParts.Flags] EmailParts.AttachmentsInfo = false
  /\ includes [EmailParts.Flags] EmailParts.TextContent = false
  /\ includes [EmailParts.Flags] EmailParts.HtmlContent = false
  /\ (forall ev,
        In ev (snd (run scripted 5 "INBOX" "ALL" [EmailParts.Flags]
                      Samples.twoMessages)) ->
        is_download ev = false)
  /\ (forall fetchQuery res,
        In (EvFetchNext fetchQuery res)
           (snd (run scripted 5 "INBOX" "ALL" [EmailParts.Flags]
                   Samples.twoMessages)) ->
        fq_bodyStructure fetchQuery
        = includes [EmailParts.Flags] EmailParts.BodyStructure).
Proof.
  split; [ reflexivity | ]. split; [ reflexivity | ].
  split; [ reflexivity | ].
  apply (@no_content_no_download Script scripted 5 "INBOX" "ALL"
           [EmailParts.Flags] Samples.twoMessages); reflexivity.
Defined.

Lemma record_derived_fields_witness :
  fst Samples.attachmentsRun
  = Returned [Samples.bareRecord; Samples.pdfRecord]
  /\ includes [EmailParts.AttachmentsInfo] EmailParts.AttachmentsInfo = true
  /\ bodyStructure (json Samples.bareRecord) = None
  /\ out_attachmentsInfo Samples.bareRecord = Some [].
Proof.
  split; [ reflexivity | ]. split; [ reflexivity | ].
  split; [ reflexivity | ].
  destruct (@record_derived_fields Script scripted 5 "INBOX" "ALL"
              [EmailParts.AttachmentsInfo] Samples.withAndWithout
              [Samples.bareRecord; Samples.pdfRecord]
              Samples.bareRecord) as [Hatt _].
  - reflexivity.
  - left. reflexivity.
  - apply Hatt. reflexivity.
Defined.

(** A bulk fetch that yields no message: the run returns the empty
    list after the opening of the mailbox and one [next()]. *)
Example empty_mailbox :
  run scripted 1 "INBOX" "ALL"
    [EmailParts.TextContent; EmailParts.AttachmentsInfo]
    {| sc_fetch := []; sc_downloads := [] |}
  = (Returned [],
     [ EvMailboxOpen "INBOX" true None;
       EvFetchNext (buildFetchQuery [EmailParts.TextContent;
                                     EmailParts.AttachmentsInfo])
                   IterDone ]).
Proof. reflexivity. Qed.

(** A part id that is the empty string is falsy: the part is
    classified and not downloaded. *)
Example empty_part_id_not_downloaded :
  run scripted 3 "INBOX" "ALL" [EmailParts.TextContent]
    {| sc_fetch := [IterValue (Samples.message 7
                      (Samples.multipart None "multipart/mixed"
                         [Samples.leaf EmptyString "text/plain" 10]))];
       sc_downloads := [] |}
  = (Returned [ {| json := Samples.message 7
                      (Samples.multipart None "multipart/mixed"
                         [Samples.leaf EmptyString "text/plain" 10]);
                   out_attachmentsInfo := None;
                   out_textContent := None;
                   out_htmlContent := None |} ],
     [ EvMailboxOpen "INBOX" true None;
       EvFetchNext (buildFetchQuery [EmailParts.TextContent])
         (IterValue (Samples.message 7
                      (Samples.multipart None "multipart/mixed"
                         [Samples.leaf EmptyString "text/plain" 10])));
       EvFetchNext (buildFetchQuery [EmailParts.TextContent]) IterDone ]).
Proof. reflexivity. Qed.

End Runs.
(* ===================================================================== *)
(** * Further properties of the walker and the classification *)
(* ===================================================================== *)

Section MoreWalker.

Lemma strict_eq_true x lit : strict_eq x lit = true -> x = Some lit.
Proof.
  destruct x as [s|]; simpl; [ | discriminate ].
  intros H. apply String.eqb_eq in H. now subst.
Qed.

Lemma not_attachment p :
  is_attachment p = false -> pi_disposition p <> Some "attachment".
Proof.
  unfold is_attachment. intros H E. rewrite E in H. discriminate.
Qed.

(** X1: a descriptor of the walker carries a filename only when its
    disposition is ['attachment'] (lines 54-59): the filename of a
    part with another disposition, or with none, is never copied. *)
Theorem walker_filename_only_for_attachments (root : BodyStructureNode) :
  Forall (fun d => pi_filename d = None
                   \/ pi_disposition d = Some "attachment")
         (getEmailPartsInfoRecursive root).
Proof.
  apply Forall_forall. intros d Hd.
  rewrite walk_descendants in Hd. apply in_flat_map_pushed in Hd.
  destruct Hd as [n [sz [_ [_ ->]]]]. unfold partInfoOf.
  destruct (disposition n) as [disp|]; simpl; [ | now left ].
  destruct (String.eqb disp "attachment") eqn:E; [ right | now left ].
  apply String.eqb_eq in E. now subst.
Qed.

Lemma descendants_segment root :
  forall n, In n (descendants root) ->
    exists l1 l2, descendants root = l1 ++ n :: descendants n ++ l2.
Proof.
  induction root as [p t e s d f | p t e s d f cs IH]
    using BodyStructureNode_tree_ind; intros n Hn; [ now elim Hn | ].
  rewrite descendants_unfold in *.
  apply in_flat_map in Hn. destruct Hn as [c [Hc Hn]].
  destruct (in_split c cs Hc) as [before [after ->]].
  rewrite flat_map_app. simpl.
  set (F := flat_map (fun c0 => c0 :: descendants c0)).
  destruct Hn as [<- | Hn].
  - exists (F before), (F after). reflexivity.
  - rewrite Forall_forall in IH.
    destruct (IH c Hc n Hn) as [m1 [m2 E]].
    exists (F before ++ c :: m1), (m2 ++ F after).
    rewrite E at 1. rewrite <- !app_assoc. simpl.
    now rewrite <- !app_assoc.
Qed.

(** X2: the walk composes over subtrees: for every node [n] below the
    root, what the walker returns for the whole tree holds, as one
    unbroken run, the descriptor of [n] (if it has a size) followed by
    all the walker returns for [n] itself. *)
Theorem walker_subtree_is_a_segment (root n : BodyStructureNode) :
  In n (descendants root) ->
  exists before after,
    getEmailPartsInfoRecursive root
    = before ++ (pushed n ++ getEmailPartsInfoRecursive n) ++ after.
Proof.
  intros Hn. destruct (descendants_segment root n Hn) as [l1 [l2 E]].
  exists (flat_map pushed l1), (flat_map pushed l2).
  rewrite !walk_descendants, E, flat_map_app. simpl.
  now rewrite flat_map_app, <- !app_assoc.
Qed.

Lemma walker_subtree_is_a_segment_witness :
  In (Samples.multipart (Some "1") "multipart/alternative"
        [ Samples.leaf "1.1" "text/plain" 10;
          Samples.leaf "1.2" "text/html" 20 ])
     (descendants Samples.nested)
  /\ exists before after,
       getEmailPartsInfoRecursive Samples.nested
       = before
         ++ (pushed (Samples.multipart (Some "1") "multipart/alternative"
                       [ Samples.leaf "1.1" "text/plain" 10;
                         Samples.leaf "1.2" "text/html" 20 ])
             ++ getEmailPartsInfoRecursive
                  (Samples.multipart (Some "1") "multipart/alternative"
                     [ Samples.leaf "1.1" "text/plain" 10;
                       Samples.leaf "1.2" "text/html" 20 ]))
         ++ after.
Proof.
  split; [ left; reflexivity | ].
  apply walker_subtree_is_a_segment. left. reflexivity.
Defined.

Lemma last_such_some (A : Type) (test : A -> bool) (l : list A) x :
  last_such test l = Some x -> In x l /\ test x = true.
Proof.
  induction l as [| y l IH]; simpl; [ discriminate | ].
  destruct (last_such test l) as [z|].
  - intros [= ->]. destruct (IH eq_refl). auto.
  - destruct (test y) eqn:E; [ | discriminate ].
    intros [= ->]. auto.
Qed.

Lemma partInfoOf_fields n sz :
  pi_partId (partInfoOf n sz) = part n
  /\ pi_type (partInfoOf n sz) = type n
  /\ pi_encoding (partInfoOf n sz) = encoding n
  /\ pi_size (partInfoOf n sz) = sz
  /\ pi_disposition (partInfoOf n sz) = disposition n.
Proof. unfold partInfoOf. now destruct (disposition n). Qed.

Lemma partIdFor_some mime root id :
  partIdFor mime (getEmailPartsInfoRecursive root) = Some id ->
  exists n, In n (descendants root)
            /\ part n = Some id
            /\ type n = Some mime
            /\ size n <> None
            /\ disposition n <> Some "attachment".
Proof.
  unfold partIdFor.
  destruct (last_such _ (getEmailPartsInfoRecursive root)) as [d|] eqn:E;
    [ | discriminate ].
  intros Hid. apply last_such_some in E. destruct E as [Hin Htest].
  apply andb_true_iff in Htest. destruct Htest as [Hna Hty].
  apply negb_true_iff, not_attachment in Hna.
  apply strict_eq_true in Hty.
  rewrite walk_descendants in Hin. apply in_flat_map_pushed in Hin.
  destruct Hin as [n [sz [Hn [Hsz ->]]]].
  destruct (partInfoOf_fields n sz) as [Fp [Ft [_ [_ Fd]]]].
  rewrite Fp in Hid. rewrite Ft in Hty. rewrite Fd in Hna.
  exists n. repeat split; trivial. congruence.
Qed.

(** X3: where the part ids of the classification come from.  A
    [textPartId] is either ["TEXT"], for a message without
    [childNodes] whose type is ['text/plain'] (whatever its
    disposition: lines 206-213 do not read it), or the [part] of a
    node below the root that has a size, the type ['text/plain'] and
    a disposition other than ['attachment'] (line 189); the same
    holds for [htmlPartId] and ['text/html']. *)
Theorem part_ids_point_at_text_parts (bs : BodyStructureNode) (id : string) :
  (textPartId (classify bs) = Some id ->
     (childNodes bs = None /\ type bs = Some "text/plain" /\ id = "TEXT")
     \/ exists n, In n (descendants bs)
                  /\ part n = Some id
                  /\ type n = Some "text/plain"
                  /\ size n <> None
                  /\ disposition n <> Some "attachment")
  /\ (htmlPartId (classify bs) = Some id ->
     (childNodes bs = None /\ type bs = Some "text/html" /\ id = "TEXT")
     \/ exists n, In n (descendants bs)
                  /\ part n = Some id
                  /\ type n = Some "text/html"
                  /\ size n <> None
                  /\ disposition n <> Some "attachment").
Proof.
  unfold classify. destruct (childNodes bs) as [cs|] eqn:Ecs.
  - rewrite classifyPart_loop. simpl.
    split; intros H; right.
    + apply partIdFor_some. unfold partIdFor.
      now destruct (last_such _ (getEmailPartsInfoRecursive bs)).
    + apply partIdFor_some. unfold partIdFor.
      now destruct (last_such _ (getEmailPartsInfoRecursive bs)).
  - unfold classifySinglePart.
    destruct (strict_eq (type bs) "text/plain") eqn:Ep;
      destruct (strict_eq (type bs) "text/html") eqn:Eh; simpl;
      split; intros H; try discriminate; left; injection H as <-;
      repeat split; now apply strict_eq_true.
Qed.

Lemma part_ids_point_at_text_parts_witness :
  textPartId (classify Samples.nested) = Some "3"
  /\ ((childNodes Samples.nested = None
       /\ type Samples.nested = Some "text/plain" /\ "3" = "TEXT")
      \/ exists n, In n (descendants Samples.nested)
                   /\ part n = Some "3"
                   /\ type n = Some "text/plain"
                   /\ size n <> None
                   /\ disposition n <> Some "attachment").
Proof.
  split; [ reflexivity | ].
  apply (proj1 (part_ids_point_at_text_parts Samples.nested "3")).
  reflexivity.
Defined.

(** The disposition of a single-part message is not looked at: a text
    file sent as an attachment, alone in its message, is taken for the
    text body. *)
Example single_part_attachment_is_the_body :
  disposition MoreSamples.attachedText = Some "attachment"
  /\ classify MoreSamples.attachedText
     = {| textPartId := Some "TEXT"; htmlPartId := None;
          attachmentsInfo := [] |}.
Proof. split; reflexivity. Qed.

End MoreWalker.

(* ===================================================================== *)
(** * Further properties of the stream reader and the descriptor *)
(* ===================================================================== *)

Section MoreStream.

(** X4: only the bytes count, not the way the stream cuts them into
    chunks: two streams that end after delivering the same bytes
    resolve to the same text, so a character whose bytes arrive in
    two chunks is decoded as one character (line 34 decodes after
    [Buffer.concat]). *)
Theorem chunking_is_irrelevant (chunks1 chunks2 : list (list Byte.byte)) :
  List.concat chunks1 = List.concat chunks2 ->
  streamToString (map OnData chunks1 ++ [OnEnd])
  = streamToString (map OnData chunks2 ++ [OnEnd]).
Proof.
  intros E. unfold streamToString.
  destruct (streamToString_from_end [] chunks1 [] EmptyString) as [-> _].
  destruct (streamToString_from_end [] chunks2 [] EmptyString) as [-> _].
  simpl. now rewrite E.
Qed.

Lemma chunking_is_irrelevant_witness :
  List.concat [[Byte.xc3]; [Byte.xa9]] = List.concat [MoreSamples.eacute]
  /\ streamToString [OnData [Byte.xc3]; OnData [Byte.xa9]; OnEnd]
     = streamToString [OnData MoreSamples.eacute; OnEnd]
  /\ streamToString [OnData MoreSamples.eacute; OnEnd] = Resolved [233%N].
Proof.
  split; [ reflexivity | ]. split; [ | reflexivity ].
  apply (@chunking_is_irrelevant [[Byte.xc3]; [Byte.xa9]]
           [MoreSamples.eacute]).
  reflexivity.
Defined.

Lemma includes_In l p : includes l p = true <-> In p l.
Proof.
  unfold includes. rewrite existsb_exists. split.
  - intros [x [Hx E]]. apply String.eqb_eq in E. now subst.
  - intros H. exists p. split; [ exact H | apply String.eqb_refl ].
Qed.

Lemma includes_same l1 l2 :
  (forall p, In p l1 <-> In p l2) ->
  forall p, includes l1 p = includes l2 p.
Proof.
  intros H p.
  destruct (includes l1 p) eqn:E1, (includes l2 p) eqn:E2; trivial.
  - apply includes_In, H, includes_In in E1. congruence.
  - apply includes_In, H, includes_In in E2. congruence.
Qed.

(** X5: the descriptor of the bulk fetch asks for [flags] exactly when
    the flags are included and for [size] exactly when the size is
    (lines 139-144), and for [bodyStructure] exactly when the body
    structure, the attachments info, the text content or the HTML
    content is (lines 136-156); strings that are none of the six
    options change nothing. *)
Theorem fetchQuery_exact (includeParts : list string) :
  fq_flags (buildFetchQuery includeParts)
  = includes includeParts EmailParts.Flags
  /\ fq_size (buildFetchQuery includeParts)
     = includes includeParts EmailParts.Size
  /\ (fq_bodyStructure (buildFetchQuery includeParts) = true <->
      In EmailParts.BodyStructure includeParts
      \/ In EmailParts.AttachmentsInfo includeParts
      \/ In EmailParts.TextContent includeParts
      \/ In EmailParts.HtmlContent includeParts).
Proof.
  rewrite buildFetchQuery_fields. simpl. repeat split.
  - intros H. rewrite <- !includes_In.
    destruct (includes includeParts EmailParts.BodyStructure),
             (includes includeParts EmailParts.AttachmentsInfo),
             (includes includeParts EmailParts.TextContent),
             (includes includeParts EmailParts.HtmlContent);
      simpl in H; auto; discriminate.
  - rewrite <- !includes_In.
    intros [-> | [-> | [-> | ->]]]; simpl;
      rewrite ?orb_true_r; reflexivity.
Qed.

End MoreStream.

(* ===================================================================== *)
(** * The calls of a run, exactly *)
(* ===================================================================== *)

Section Calls.

Context {World : Type}.
Variable client : ImapFlow World.

Lemma meets_and_then (A B : Type) (m : @Async World A)
    (k : A -> @Async World B)
    (Q1 : Outcome A -> list Event -> Prop)
    (Q2 : A -> Outcome B -> list Event -> Prop) :
  meets m Q1 -> (forall a, meets (k a) (Q2 a)) ->
  meets (bind m k) (and_then Q1 Q2).
Proof.
  intros Hm Hk. apply meets_bind with (Q1 := Q1) (Q2 := Q2); trivial.
  - intros a l1 r l2 H1 H2. now exists (Returned a), l1, l2.
  - intros e l1 H1. exists (Thrown e), l1, []. now rewrite app_nil_r.
  - intros l1 H1. exists Hangs, l1, []. now rewrite app_nil_r.
  - intros l1 H1. exists OutOfFuel, l1, []. now rewrite app_nil_r.
Qed.

Lemma wanted_none_l partId : wanted false partId = None.
Proof. reflexivity. Qed.

Lemma wanted_some include partId id :
  wanted include partId = Some id ->
  include = true /\ partId = Some id /\ id <> EmptyString.
Proof.
  unfold wanted. destruct include; simpl; [ | discriminate ].
  destruct partId as [s|]; simpl; [ | discriminate ].
  destruct (String.eqb s EmptyString) eqn:E; simpl; [ discriminate | ].
  intros [= ->]. repeat split. intros ->. discriminate.
Qed.

Lemma wanted_is_some include partId :
  wanted include partId <> None <-> include = true /\ truthy partId = true.
Proof.
  unfold wanted. destruct include; simpl.
  - destruct (truthy partId) eqn:E.
    + destruct partId; [ | discriminate ]. split; [ auto | discriminate ].
    + split; [ intros H; now elim H | intros [_ H]; discriminate ].
  - split; [ intros H; now elim H | intros [H _]; discriminate ].
Qed.

Lemma exact_fetchContent include partId email store item_json :
  meets (fetchContent client include partId email store item_json)
        (guarded_download (uid_toString (uid email)) (wanted include partId)
           store item_json).
Proof.
  unfold fetchContent, wanted.
  destruct partId as [id|];
    [ | rewrite andb_false_r; now apply meets_ret ].
  destruct (include && truthy (Some id)); [ | now apply meets_ret ].
  intros w log. unfold bind, await_download, await_streamToString, ret.
  destruct (download client (uid_toString (uid email)) id true w)
    as [res w'].
  exists [EvDownload (uid_toString (uid email)) id true res].
  unfold guarded_download, after_download, settle.
  destruct res as [content | e]; simpl.
  - destruct (streamToString content) as [str | e | ] eqn:Es; simpl;
      (split; [ reflexivity | ]); exists (inl content);
      (split; [ reflexivity | now rewrite Es ]).
  - split; [ reflexivity | eexists; split; reflexivity ].
Qed.

Lemma exact_processEmail a t h email :
  meets (processEmail client a t h email) (message_run a t h email).
Proof.
  unfold processEmail, message_run.
  destruct (t || h) eqn:E.
  - assert (Hon : a || t || h = true)
      by (rewrite <- orb_assoc, E; apply orb_true_r).
    rewrite Hon.
    apply meets_and_then.
    + apply exact_fetchContent.
    + intros item1. apply meets_bind_ret. apply exact_fetchContent.
  - apply orb_false_iff in E. destruct E as [-> ->].
    apply meets_ret.
    exists (Returned (item_before_downloads a email)), [], [].
    rewrite !wanted_none_l. simpl. repeat split.
    unfold item_before_downloads. destruct a; reflexivity.
Qed.

Lemma exact_processEmails a t h emailsList :
  forall returnData,
    meets (processEmails client a t h emailsList returnData)
          (messages_run a t h emailsList returnData).
Proof.
  induction emailsList as [| email emailsList IH]; intros returnData; simpl.
  - now apply meets_ret.
  - apply meets_and_then; [ apply exact_processEmail | intros; apply IH ].
Qed.

Lemma exact_next searchObject fetchQuery :
  meets (await_next client searchObject fetchQuery)
        (fun r added =>
           exists res, added = [EvFetchNext fetchQuery res]
                       /\ r = match res with
                              | IterValue email => Returned (Some email)
                              | IterDone => Returned None
                              | IterThrow e => Thrown e
                              end).
Proof.
  intros w log. unfold await_next.
  destruct (fetch_next client searchObject fetchQuery w) as [res w'].
  exists [EvFetchNext fetchQuery res].
  destruct res; simpl; (split; [ reflexivity | eexists; split; reflexivity ]).
Qed.

Lemma exact_fetchAll fuel searchObject fetchQuery :
  forall emailsList,
    meets (fetchAll client fuel searchObject fetchQuery emailsList)
          (bulk_fetch fetchQuery emailsList).
Proof.
  induction fuel as [| fuel IH]; intros emailsList; simpl.
  - intros w log. exists []. simpl. rewrite app_nil_r.
    split; [ reflexivity | now exists [] ].
  - eapply meets_bind with
      (Q2 := fun a r added =>
               match a with
               | Some email => bulk_fetch fetchQuery (emailsList ++ [email])
                                 r added
               | None => added = [] /\ r = Returned emailsList
               end).
    + apply exact_next.
    + intros [email|]; [ apply IH | now apply meets_ret ].
    + intros [email|] l1 r l2 [res [-> Hres]] H2.
      * destruct res as [email' | | e]; try discriminate.
        injection Hres as <-.
        destruct r as [l | e | | ]; simpl in *.
        -- destruct H2 as [new [-> ->]]. exists (email :: new).
           now rewrite <- app_assoc.
        -- destruct H2 as [new ->]. now exists (email :: new).
        -- exact H2.
        -- destruct H2 as [new ->]. now exists (email :: new).
      * destruct res as [email' | | e]; try discriminate.
        destruct H2 as [-> ->]. simpl. exists [].
        now rewrite app_nil_r.
    + intros e l1 [res [-> Hres]].
      destruct res as [email' | | e']; try discriminate.
      injection Hres as <-. now exists [].
    + intros l1 [res [-> Hres]]. now destruct res.
    + intros l1 [res [-> Hres]]. now destruct res.
Qed.

Lemma exact_executeImapAction fuel mailboxPath searchObject includeParts :
  meets (executeImapAction client fuel mailboxPath searchObject includeParts)
        (action_run mailboxPath includeParts).
Proof.
  unfold executeImapAction, action_run.
  apply meets_and_then.
  - intros w log. unfold await_mailboxOpen.
    destruct (mailboxOpen client mailboxPath true w) as [res w'].
    exists [EvMailboxOpen mailboxPath true res].
    destruct res; simpl;
      (split; [ reflexivity | eexists; split; reflexivity ]).
  - intros u. apply meets_and_then.
    + apply exact_fetchAll.
    + intros emailsList. apply exact_processEmails.
Qed.

Lemma run_action fuel mailboxPath searchObject includeParts w :
  action_run mailboxPath includeParts
    (fst (run client fuel mailboxPath searchObject includeParts w))
    (snd (run client fuel mailboxPath searchObject includeParts w)).
Proof. apply run_meets. apply exact_executeImapAction. Qed.

End Calls.

(* ===================================================================== *)
(** * What the calls of a run imply *)
(* ===================================================================== *)

Section Facts.

Lemma download_requests_app l1 l2 :
  download_requests (l1 ++ l2) = download_requests l1 ++ download_requests l2.
Proof. apply flat_map_app. Qed.

Lemma fetched_app l1 l2 : fetched (l1 ++ l2) = fetched l1 ++ fetched l2.
Proof. apply flat_map_app. Qed.

Lemma fetched_yields q emails : fetched (yields q emails) = emails.
Proof.
  induction emails as [| e emails IH]; simpl; [ reflexivity | now rewrite IH ].
Qed.

Lemma download_requests_yields q emails :
  download_requests (yields q emails) = [].
Proof. induction emails as [| e emails IH]; simpl; trivial. Qed.

Lemma fetched_downloads l :
  Forall (fun ev => is_download ev = true) l -> fetched l = [].
Proof.
  induction 1 as [| ev l Hev _ IH]; simpl; [ reflexivity | ].
  destruct ev; try discriminate. exact IH.
Qed.

Lemma in_download_requests u p b res l :
  In (EvDownload u p b res) l -> In (u, p, b) (download_requests l).
Proof.
  intros H. unfold download_requests. apply in_flat_map.
  exists (EvDownload u p b res). split; [ exact H | now left ].
Qed.

Lemma guarded_requests u w store item r added :
  guarded_download u w store item r added ->
  download_requests added
  = match w with Some id => [(u, id, true)] | None => [] end
  /\ Forall (fun ev => is_download ev = true) added
  /\ r <> OutOfFuel.
Proof.
  unfold guarded_download. destruct w as [id|].
  - intros [res [-> ->]]. repeat split; [ repeat constructor | ].
    unfold after_download. now destruct (settle res).
  - intros [-> ->]. repeat split; [ constructor | discriminate ].
Qed.
Arguments guarded_requests {u w store item r added} _.

Lemma guarded_returned u w store item r added item' :
  guarded_download u w store item r added ->
  r = Returned item' ->
  match w with
  | None => item' = item /\ added = []
  | Some id =>
      exists res str, added = [EvDownload u id true res]
                      /\ settle res = Resolved str
                      /\ item' = store item str
  end.
Proof.
  unfold guarded_download. destruct w as [id|].
  - intros [res [-> ->]]. unfold after_download.
    destruct (settle res) as [str | e | ] eqn:E; try discriminate.
    intros [= <-]. now exists res, str.
  - intros [-> ->] [= <-]. now split.
Qed.
Arguments guarded_returned {u w store item r added item'} _ _.

Lemma guarded_hang u w store item r added u' p b res :
  guarded_download u w store item r added ->
  In (EvDownload u' p b res) added -> settle res = Pending -> r = Hangs.
Proof.
  unfold guarded_download. destruct w as [id|].
  - intros [res' [-> ->]] [[= <- <- <- <-] | []] E.
    unfold after_download. now rewrite E.
  - intros [-> _] [].
Qed.
Arguments guarded_hang {u w store item r added u' p b res} _ _ _.

Lemma content_from_incl l l' u w field :
  incl l l' -> content_from l u w field -> content_from l' u w field.
Proof.
  unfold content_from. destruct w as [id|]; trivial.
  intros Hincl [res [str [Hin H]]]. exists res, str. split; auto.
Qed.

Lemma record_contents_incl a t h l l' item :
  incl l l' -> record_contents a t h l item -> record_contents a t h l' item.
Proof.
  unfold record_contents. intros Hincl [H1 [H2 H3]].
  repeat split; trivial; eapply content_from_incl; eauto.
Qed.

Lemma message_requests a t h email r added :
  message_run a t h email r added ->
  Forall (fun ev => is_download ev = true) added
  /\ r <> OutOfFuel
  /\ exists rest,
       download_requests added ++ rest = requests t h email
       /\ (forall item, r = Returned item -> rest = []).
Proof.
  unfold message_run, and_then, requests.
  intros [r1 [l1 [l2 [-> [H1 H2]]]]].
  destruct (guarded_requests H1) as [R1 [D1 F1]].
  rewrite download_requests_app, R1.
  destruct r1 as [item1 | e | | ].
  - destruct (guarded_requests H2) as [R2 [D2 F2]]. rewrite R2.
    repeat split; [ now apply Forall_app | exact F2 | ].
    exists []. now rewrite app_nil_r.
  - destruct H2 as [-> ->].
    change (download_requests []) with (@nil (string * string * bool)).
    rewrite !app_nil_r.
    repeat split; [ exact D1 | discriminate | ].
    eexists. split; [ reflexivity | discriminate ].
  - destruct H2 as [-> ->].
    change (download_requests []) with (@nil (string * string * bool)).
    rewrite !app_nil_r.
    repeat split; [ exact D1 | discriminate | ].
    eexists. split; [ reflexivity | discriminate ].
  - now elim F1.
Qed.
Arguments message_requests {a t h email r added} _.

Lemma message_record a t h email r added item :
  message_run a t h email r added ->
  r = Returned item ->
  json item = email /\ record_contents a t h added item.
Proof.
  unfold message_run, and_then.
  intros [r1 [l1 [l2 [-> [H1 H2]]]]] Hr.
  destruct r1 as [item1 | e | | ];
    try (destruct H2 as [_ ->]; discriminate).
  pose proof (guarded_returned H1 eq_refl) as G1.
  pose proof (guarded_returned H2 Hr) as G2.
  assert (J0 : json (item_before_downloads a email) = email)
    by (unfold item_before_downloads; now destruct a).
  assert (A0 : out_attachmentsInfo (item_before_downloads a email)
               = if a then Some (attachmentsInfo
                                   (analyze true (bodyStructure email)))
                 else None)
    by (unfold item_before_downloads; now destruct a).
  assert (T0 : out_textContent (item_before_downloads a email) = None)
    by (unfold item_before_downloads; now destruct a).
  assert (H0 : out_htmlContent (item_before_downloads a email) = None)
    by (unfold item_before_downloads; now destruct a).
  assert (J : json item = email).
  { destruct (wanted t _) as [id1|], (wanted h _) as [id2|].
    - destruct G1 as [? [? [_ [_ ->]]]], G2 as [? [? [_ [_ ->]]]]. exact J0.
    - destruct G1 as [? [? [_ [_ ->]]]], G2 as [-> _]. exact J0.
    - destruct G1 as [-> _], G2 as [? [? [_ [_ ->]]]]. exact J0.
    - destruct G1 as [-> _], G2 as [-> _]. exact J0. }
  split; [ exact J | ].
  unfold record_contents. rewrite J.
  destruct (wanted t _) as [id1|], (wanted h _) as [id2|]; simpl.
  - destruct G1 as [res1 [str1 [-> [S1 ->]]]],
             G2 as [res2 [str2 [-> [S2 ->]]]].
    simpl. repeat split; [ exact A0 | | ].
    + exists res1, str1. repeat split; trivial. now left.
    + exists res2, str2. repeat split; trivial. right. now left.
  - destruct G1 as [res1 [str1 [-> [S1 ->]]]], G2 as [-> ->].
    simpl. repeat split; [ exact A0 | | exact H0 ].
    exists res1, str1. repeat split; trivial. now left.
  - destruct G1 as [-> ->], G2 as [res2 [str2 [-> [S2 ->]]]].
    simpl. repeat split; [ exact A0 | exact T0 | ].
    exists res2, str2. repeat split; trivial. now left.
  - destruct G1 as [-> ->], G2 as [-> ->].
    simpl. repeat split; [ exact A0 | exact T0 | exact H0 ].
Qed.
Arguments message_record {a t h email r added item} _ _.

Lemma message_hang a t h email r added u p b res :
  message_run a t h email r added ->
  In (EvDownload u p b res) added -> settle res = Pending -> r = Hangs.
Proof.
  unfold message_run, and_then.
  intros [r1 [l1 [l2 [-> [H1 H2]]]]] Hin E.
  apply in_app_or in Hin. destruct Hin as [Hin | Hin].
  - pose proof (guarded_hang H1 Hin E) as ->. now destruct H2.
  - destruct r1 as [item1 | e | | ].
    + exact (guarded_hang H2 Hin E).
    + destruct H2 as [-> _]. now elim Hin.
    + now destruct H2.
    + destruct H2 as [-> _]. now elim Hin.
Qed.
Arguments message_hang {a t h email r added u p b res} _ _ _.

Lemma messages_facts a t h emails :
  forall returnData r added,
    messages_run a t h emails returnData r added ->
    Forall (fun ev => is_download ev = true) added
    /\ r <> OutOfFuel
    /\ (exists rest,
          download_requests added ++ rest = flat_map (requests t h) emails
          /\ (forall items, r = Returned items -> rest = []))
    /\ (forall items, r = Returned items ->
          exists new, items = returnData ++ new
                      /\ map json new = emails
                      /\ Forall (record_contents a t h added) new)
    /\ (forall u p b res,
          In (EvDownload u p b res) added -> settle res = Pending ->
          r = Hangs).
Proof.
  induction emails as [| email emails IH]; intros returnData r added; simpl.
  - intros [-> ->].
    split; [ constructor | ]. split; [ discriminate | ].
    split; [ now exists [] | ]. split.
    + intros items [= <-]. exists []. rewrite app_nil_r.
      split; [ reflexivity | ]. split; [ reflexivity | constructor ].
    + intros u p b res [].
  - intros [r1 [l1 [l2 [-> [H1 H2]]]]].
    destruct (message_requests H1) as [D1 [F1 [rest1 [R1 Z1]]]].
    destruct r1 as [item | e | | ].
    + destruct (IH _ _ _ H2) as [D2 [F2 [[rest2 [R2 Z2]] [V2 G2]]]].
      split; [ now apply Forall_app | ]. split; [ exact F2 | ].
      split; [ | split ].
      * exists rest2. rewrite (Z1 item eq_refl), app_nil_r in R1.
        rewrite download_requests_app, <- R1, <- R2, <- app_assoc.
        split; [ reflexivity | exact Z2 ].
      * intros items Hr. destruct (V2 items Hr) as [new [-> [M2 C2]]].
        destruct (message_record H1 eq_refl) as [J C1].
        exists (item :: new). rewrite <- app_assoc. simpl.
        split; [ reflexivity | ]. split; [ now rewrite J, M2 | ].
        constructor.
        -- eapply record_contents_incl; [ | exact C1 ].
           apply incl_appl, incl_refl.
        -- eapply Forall_impl; [ | exact C2 ]. intros x.
           apply record_contents_incl. apply incl_appr, incl_refl.
      * intros u p b res Hin E. apply in_app_or in Hin.
        destruct Hin as [Hin | Hin].
        -- pose proof (message_hang H1 Hin E). discriminate.
        -- exact (G2 u p b res Hin E).
    + destruct H2 as [-> ->]. rewrite app_nil_r.
      split; [ exact D1 | ]. split; [ discriminate | ].
      split; [ | split; [ discriminate | ] ].
      * exists (rest1 ++ flat_map (requests t h) emails).
        rewrite app_assoc, R1. split; [ reflexivity | discriminate ].
      * intros u p b res Hin E.
        pose proof (message_hang H1 Hin E). discriminate.
    + destruct H2 as [-> ->]. rewrite app_nil_r.
      split; [ exact D1 | ]. split; [ discriminate | ].
      split; [ | split; [ discriminate | trivial ] ].
      exists (rest1 ++ flat_map (requests t h) emails).
      rewrite app_assoc, R1. split; [ reflexivity | discriminate ].
    + now elim F1.
Qed.

(** The four ways a run can go. *)
Lemma action_cases mailboxPath includeParts r log :
  action_run mailboxPath includeParts r log ->
  (exists e, log = [EvMailboxOpen mailboxPath true (Some e)] /\ r = Thrown e)
  \/ (exists new e,
        log = EvMailboxOpen mailboxPath true None
              :: yields (buildFetchQuery includeParts) new
                 ++ [EvFetchNext (buildFetchQuery includeParts) (IterThrow e)]
        /\ r = Thrown e)
  \/ (exists new,
        log = EvMailboxOpen mailboxPath true None
              :: yields (buildFetchQuery includeParts) new
        /\ r = OutOfFuel)
  \/ (exists emails downloads,
        log = EvMailboxOpen mailboxPath true None
              :: yields (buildFetchQuery includeParts) emails
                 ++ EvFetchNext (buildFetchQuery includeParts) IterDone
                    :: downloads
        /\ messages_run
             (includes includeParts EmailParts.AttachmentsInfo)
             (includes includeParts EmailParts.TextContent)
             (includes includeParts EmailParts.HtmlContent)
             emails [] r downloads).
Proof.
  unfold action_run, and_then.
  intros [r1 [l1 [l2 [-> [[res [-> Hr1]] H2]]]]].
  destruct res as [e|]; subst r1.
  - left. destruct H2 as [-> ->]. now exists e.
  - right. destruct H2 as [r2 [l3 [l4 [-> [H3 H4]]]]].
    destruct r2 as [emails | e | | ]; simpl in H3.
    + right. right. destruct H3 as [new [-> ->]]. simpl in H4.
      exists new, l4. split; [ | exact H4 ].
      simpl. now rewrite <- app_assoc.
    + left. destruct H3 as [new ->], H4 as [-> ->].
      exists new, e. now rewrite app_nil_r.
    + contradiction.
    + right. left. destruct H3 as [new ->], H4 as [-> ->].
      exists new. now rewrite app_nil_r.
Qed.

End Facts.

(* ===================================================================== *)
(** * Further properties of the listing action *)
(* ===================================================================== *)

Section MoreOrchestrator.

Context {World : Type}.
Variable client : ImapFlow World.

Lemma fetched_log_done path q emails downloads :
  Forall (fun ev => is_download ev = true) downloads ->
  fetched (EvMailboxOpen path true None
           :: yields q emails ++ EvFetchNext q IterDone :: downloads)
  = emails.
Proof.
  intros Hd. change (fetched (?x :: ?l)) with (fetched l).
  rewrite fetched_app, fetched_yields.
  change (fetched (EvFetchNext q IterDone :: downloads))
    with (fetched downloads).
  now rewrite (fetched_downloads Hd), app_nil_r.
Qed.

Lemma requests_log_done path q emails downloads :
  download_requests (EvMailboxOpen path true None
                     :: yields q emails ++ EvFetchNext q IterDone :: downloads)
  = download_requests downloads.
Proof.
  change (download_requests (?x :: ?l)) with (download_requests l).
  now rewrite download_requests_app, download_requests_yields.
Qed.

Lemma requests_log_yields path q emails tail :
  download_requests (EvMailboxOpen path true None
                     :: yields q emails ++ tail)
  = download_requests tail.
Proof.
  change (download_requests (?x :: ?l)) with (download_requests l).
  now rewrite download_requests_app, download_requests_yields.
Qed.

Lemma requests_length t h email :
  List.length (requests t h email) <= b2n t + b2n h.
Proof.
  unfold requests. rewrite List.length_app.
  apply Nat.add_le_mono.
  - destruct (wanted t _) as [id|] eqn:E; simpl; [ | lia ].
    apply wanted_some in E. destruct E as [-> _]. simpl. lia.
  - destruct (wanted h _) as [id|] eqn:E; simpl; [ | lia ].
    apply wanted_some in E. destruct E as [-> _]. simpl. lia.
Qed.

Lemma requests_all_length t h emails :
  List.length (flat_map (requests t h) emails)
  <= (b2n t + b2n h) * List.length emails.
Proof.
  induction emails as [| email emails IH]; simpl; [ lia | ].
  rewrite List.length_app. pose proof (requests_length t h email). lia.
Qed.

(** X7: only the set of included parts counts: two [includeParts]
    lists with the same elements, whatever their order and however
    often an option is repeated, give the same run (every use of
    [includeParts] is an [includes], lines 136-152). *)
Theorem includeParts_order_is_irrelevant
    (fuel : nat) (mailboxPath : string) (searchObject : SearchObject)
    (includeParts1 includeParts2 : list string) (w : World) :
  (forall p, In p includeParts1 <-> In p includeParts2) ->
  run client fuel mailboxPath searchObject includeParts1 w
  = run client fuel mailboxPath searchObject includeParts2 w.
Proof.
  intros Hsame. pose proof (@includes_same _ _ Hsame) as Hinc.
  unfold run, executeImapAction.
  rewrite !buildFetchQuery_fields, !Hinc. reflexivity.
Qed.

(** X8: every run starts by opening the mailbox, read-only, and opens
    it only once: the first call is [mailboxOpen(mailboxPath,
    { readOnly: true })], all later calls are [next()] calls with the
    descriptor built from [includeParts] or downloads, and when the
    opening is rejected nothing else is called and the run ends with
    that error (line 126). *)
Theorem mailbox_opened_first_read_only
    (fuel : nat) (mailboxPath : string) (searchObject : SearchObject)
    (includeParts : list string) (w : World) :
  exists res rest,
    snd (run client fuel mailboxPath searchObject includeParts w)
    = EvMailboxOpen mailboxPath true res :: rest
    /\ Forall (fun ev =>
                 is_download ev = true
                 \/ exists x, ev = EvFetchNext (buildFetchQuery includeParts) x)
              rest
    /\ match res with
       | Some e =>
           rest = []
           /\ fst (run client fuel mailboxPath searchObject includeParts w)
              = Thrown e
       | None => True
       end.
Proof.
  pose proof (run_action client fuel mailboxPath searchObject includeParts w)
    as Hrun.
  apply action_cases in Hrun.
  assert (Hy : forall new,
             Forall (fun ev =>
                       is_download ev = true
                       \/ exists x,
                            ev = EvFetchNext (buildFetchQuery includeParts) x)
                    (yields (buildFetchQuery includeParts) new)).
  { intros new. apply Forall_forall. intros ev Hin.
    apply in_map_iff in Hin. destruct Hin as [email [<- _]].
    right. now eexists. }
  destruct Hrun as [[e [-> ->]] | [[new [e [-> ->]]] | [[new [-> ->]]
                   | [emails [downloads [-> Hm]]]]]].
  - exists (Some e), []. split; [ reflexivity | ].
    split; [ constructor | now split ].
  - eexists None, _. split; [ reflexivity | ]. split; [ | exact I ].
    apply Forall_app. split; [ apply Hy | ].
    constructor; [ right; now eexists | constructor ].
  - eexists None, _. split; [ reflexivity | ]. split; [ apply Hy | exact I ].
  - eexists None, _. split; [ reflexivity | ]. split; [ | exact I ].
    apply Forall_app. split; [ apply Hy | ].
    constructor; [ right; now eexists | ].
    apply messages_facts in Hm. destruct Hm as [Hd _].
    eapply Forall_impl; [ | exact Hd ]. intros ev Hev. now left.
Qed.

(** The records of a run that returns: their messages are the fetched
    ones, and their contents are accounted for by the calls. *)
Lemma records_of_run
    (fuel : nat) (mailboxPath : string) (searchObject : SearchObject)
    (includeParts : list string) (w : World) (records : list OutputRecord) :
  fst (run client fuel mailboxPath searchObject includeParts w)
  = Returned records ->
  map json records
  = fetched (snd (run client fuel mailboxPath searchObject includeParts w))
  /\ Forall (record_contents
               (includes includeParts EmailParts.AttachmentsInfo)
               (includes includeParts EmailParts.TextContent)
               (includes includeParts EmailParts.HtmlContent)
               (snd (run client fuel mailboxPath searchObject
                       includeParts w)))
            records.
Proof.
  pose proof (run_action client fuel mailboxPath searchObject includeParts w)
    as Hrun.
  apply action_cases in Hrun.
  destruct Hrun as [[e [-> ->]] | [[new [e [-> ->]]] | [[new [-> ->]]
                   | [emails [downloads [-> Hm]]]]]]; try discriminate.
  intros Hr. apply messages_facts in Hm.
  destruct Hm as [Hd [_ [_ [Hv _]]]].
  destruct (Hv records Hr) as [new [-> [Hmap Hc]]].
  rewrite (fetched_log_done _ _ _ Hd). split; [ exact Hmap | ].
  eapply Forall_impl; [ | exact Hc ]. intros item.
  apply record_contents_incl.
  apply incl_tl, incl_appr, incl_tl, incl_refl.
Qed.

(** The downloads of a run follow the plan made from the fetched
    messages: they are a beginning of the planned downloads, and all
    of them when the run returns. *)
Lemma downloads_begin_the_plan
    fuel mailboxPath searchObject includeParts w :
  exists rest,
    download_requests
      (snd (run client fuel mailboxPath searchObject includeParts w))
    ++ rest
    = flat_map (requests (includes includeParts EmailParts.TextContent)
                         (includes includeParts EmailParts.HtmlContent))
        (fetched (snd (run client fuel mailboxPath searchObject
                         includeParts w)))
    /\ (forall records,
          fst (run client fuel mailboxPath searchObject includeParts w)
          = Returned records -> rest = []).
Proof.
  pose proof (run_action client fuel mailboxPath searchObject includeParts w)
    as Hrun.
  apply action_cases in Hrun.
  destruct Hrun as [[e [-> ->]] | [[new [e [-> ->]]] | [[new [-> ->]]
                   | [emails [downloads [-> Hm]]]]]].
  - eexists. split; [ reflexivity | discriminate ].
  - rewrite requests_log_yields. eexists.
    split; [ reflexivity | discriminate ].
  - rewrite <- (app_nil_r (yields _ new)), requests_log_yields.
    eexists. split; [ reflexivity | discriminate ].
  - apply messages_facts in Hm.
    destruct Hm as [Hd [_ [[rest [Hr Hz]] _]]].
    rewrite requests_log_done, (fetched_log_done _ _ _ Hd).
    exists rest. split; [ exact Hr | exact Hz ].
Qed.

(** X9: a run that returns gives one record per message the bulk
    fetch yielded, in the order in which they were yielded: the
    records are as many as the messages, and each carries the uid and
    the body structure of the message at its place (lines 161-164 and
    168-244).  These are the fields the JSON copy of line 170 keeps as
    they are; nothing is stated about the others. *)
Theorem one_record_per_message
    (fuel : nat) (mailboxPath : string) (searchObject : SearchObject)
    (includeParts : list string) (w : World) (records : list OutputRecord) :
  fst (run client fuel mailboxPath searchObject includeParts w)
  = Returned records ->
  List.length records
  = List.length
      (fetched (snd (run client fuel mailboxPath searchObject
                       includeParts w)))
  /\ map (fun item => (uid (json item), bodyStructure (json item))) records
     = map (fun email => (uid email, bodyStructure email))
         (fetched (snd (run client fuel mailboxPath searchObject
                          includeParts w))).
Proof.
  intros Hr.
  destruct (records_of_run fuel mailboxPath searchObject includeParts w Hr)
    as [<- _].
  now rewrite List.length_map, map_map.
Qed.

(** X10: every download is addressed by uid ([{ uid: true }]), with
    the uid string of a message the bulk fetch yielded and a part id
    that is not empty; that part id is the [textPartId] of the
    message when text content is included, or its [htmlPartId] when
    HTML content is (lines 224-236).  No other part is ever
    downloaded. *)
Theorem downloads_address_text_parts_by_uid
    (fuel : nat) (mailboxPath : string) (searchObject : SearchObject)
    (includeParts : list string) (w : World)
    (u p : string) (b : bool) (res : Readable + Error) :
  In (EvDownload u p b res)
     (snd (run client fuel mailboxPath searchObject includeParts w)) ->
  b = true /\ p <> EmptyString
  /\ exists email,
       In email (fetched (snd (run client fuel mailboxPath searchObject
                                includeParts w)))
       /\ u = uid_toString (uid email)
       /\ ((includes includeParts EmailParts.TextContent = true
            /\ textPartId (analyze true (bodyStructure email)) = Some p)
           \/ (includes includeParts EmailParts.HtmlContent = true
               /\ htmlPartId (analyze true (bodyStructure email)) = Some p)).
Proof.
  intros Hin. apply in_download_requests in Hin.
  destruct (downloads_begin_the_plan fuel mailboxPath searchObject
              includeParts w) as [rest [Hplan _]].
  assert (Hin' : In (u, p, b)
                   (download_requests
                      (snd (run client fuel mailboxPath searchObject
                              includeParts w)) ++ rest))
    by (apply in_or_app; now left).
  rewrite Hplan in Hin'. apply in_flat_map in Hin'.
  destruct Hin' as [email [Hemail Hreq]].
  unfold requests in Hreq. apply in_app_or in Hreq.
  destruct Hreq as [Hreq | Hreq].
  - destruct (wanted _ (textPartId _)) as [id|] eqn:E; [ | now elim Hreq ].
    destruct Hreq as [[= <- <- <-] | []].
    apply wanted_some in E. destruct E as [Ht [Hid Hne]].
    repeat split; trivial. exists email. repeat split; trivial.
    left. now split.
  - destruct (wanted _ (htmlPartId _)) as [id|] eqn:E; [ | now elim Hreq ].
    destruct Hreq as [[= <- <- <-] | []].
    apply wanted_some in E. destruct E as [Ht [Hid Hne]].
    repeat split; trivial. exists email. repeat split; trivial.
    right. now split.
Qed.

(** X11: the downloads of a run never exceed the plan: they are, in
    order, a beginning of the downloads planned for the fetched
    messages (for each message in turn, its text part when wanted,
    then its HTML part when wanted), so there are at most as many
    downloads as fetched messages for each of the two content flags
    that is set. *)
Theorem downloads_within_plan
    (fuel : nat) (mailboxPath : string) (searchObject : SearchObject)
    (includeParts : list string) (w : World) :
  (exists rest,
     download_requests
       (snd (run client fuel mailboxPath searchObject includeParts w))
     ++ rest
     = flat_map (requests (includes includeParts EmailParts.TextContent)
                          (includes includeParts EmailParts.HtmlContent))
         (fetched (snd (run client fuel mailboxPath searchObject
                          includeParts w))))
  /\ List.length
       (download_requests
          (snd (run client fuel mailboxPath searchObject includeParts w)))
     <= (b2n (includes includeParts EmailParts.TextContent)
         + b2n (includes includeParts EmailParts.HtmlContent))
        * List.length
            (fetched (snd (run client fuel mailboxPath searchObject
                             includeParts w))).
Proof.
  destruct (downloads_begin_the_plan fuel mailboxPath searchObject
              includeParts w) as [rest [Hplan _]].
  split; [ now exists rest | ].
  pose proof (requests_all_length
                (includes includeParts EmailParts.TextContent)
                (includes includeParts EmailParts.HtmlContent)
                (fetched (snd (run client fuel mailboxPath searchObject
                                 includeParts w)))) as Hlen.
  rewrite <- Hplan, List.length_app in Hlen. lia.
Qed.

(** X12: the content of a record is what was downloaded for it: a
    [textContent] is the text [streamToString] resolved to on the
    stream of a download made with the uid of the record's message
    and its [textPartId], and likewise for [htmlContent] and
    [htmlPartId] (lines 225-228 and 232-235). *)
Theorem content_comes_from_download
    (fuel : nat) (mailboxPath : string) (searchObject : SearchObject)
    (includeParts : list string) (w : World)
    (records : list OutputRecord) (item : OutputRecord) :
  fst (run client fuel mailboxPath searchObject includeParts w)
  = Returned records ->
  In item records ->
  (forall str, out_textContent item = Some str ->
     exists id content,
       textPartId (analyze true (bodyStructure (json item))) = Some id
       /\ In (EvDownload (uid_toString (uid (json item))) id true
                 (inl content))
             (snd (run client fuel mailboxPath searchObject includeParts w))
       /\ streamToString content = Resolved str)
  /\ (forall str, out_htmlContent item = Some str ->
     exists id content,
       htmlPartId (analyze true (bodyStructure (json item))) = Some id
       /\ In (EvDownload (uid_toString (uid (json item))) id true
                 (inl content))
             (snd (run client fuel mailboxPath searchObject includeParts w))
       /\ streamToString content = Resolved str).
Proof.
  intros Hr Hin.
  destruct (records_of_run fuel mailboxPath searchObject includeParts w Hr)
    as [_ Hall].
  rewrite Forall_forall in Hall. destruct (Hall item Hin) as [_ [Ht Hh]].
  assert (G : forall include partId field str,
             content_from
               (snd (run client fuel mailboxPath searchObject includeParts w))
               (uid_toString (uid (json item))) (wanted include partId) field ->
             field = Some str ->
             exists id content,
               partId = Some id
               /\ In (EvDownload (uid_toString (uid (json item))) id true
                         (inl content))
                     (snd (run client fuel mailboxPath searchObject
                             includeParts w))
               /\ streamToString content = Resolved str).
  { intros include partId field str Hc Hf. unfold content_from in Hc.
    destruct (wanted include partId) as [id|] eqn:E; [ | congruence ].
    destruct Hc as [res [str' [Hev [Hs Hf']]]].
    apply wanted_some in E. destruct E as [_ [Hid _]].
    destruct res as [content | e]; [ | discriminate ].
    exists id, content. repeat split; trivial.
    simpl in Hs. congruence. }
  split; intros str Hs; eapply G; eauto.
Qed.

(** X13: in the records of a run that returns, each derived field is
    there exactly when it is due: [attachmentsInfo] exactly when the
    attachments info is included, [textContent] exactly when text
    content is included and the classification found a non-empty
    text part id, [htmlContent] exactly when HTML content is included
    and a non-empty HTML part id was found (lines 218-236). *)
Theorem derived_fields_present_exactly_when_due
    (fuel : nat) (mailboxPath : string) (searchObject : SearchObject)
    (includeParts : list string) (w : World)
    (records : list OutputRecord) (item : OutputRecord) :
  fst (run client fuel mailboxPath searchObject includeParts w)
  = Returned records ->
  In item records ->
  (out_attachmentsInfo item <> None <->
     includes includeParts EmailParts.AttachmentsInfo = true)
  /\ (out_textContent item <> None <->
       includes includeParts EmailParts.TextContent = true
       /\ truthy (textPartId (analyze true (bodyStructure (json item))))
          = true)
  /\ (out_htmlContent item <> None <->
       includes includeParts EmailParts.HtmlContent = true
       /\ truthy (htmlPartId (analyze true (bodyStructure (json item))))
          = true).
Proof.
  intros Hr Hin.
  destruct (records_of_run fuel mailboxPath searchObject includeParts w Hr)
    as [_ Hall].
  rewrite Forall_forall in Hall. destruct (Hall item Hin) as [Ha [Ht Hh]].
  assert (G : forall include partId field,
             content_from
               (snd (run client fuel mailboxPath searchObject includeParts w))
               (uid_toString (uid (json item))) (wanted include partId) field ->
             (field <> None <-> include = true /\ truthy partId = true)).
  { intros include partId field Hc. rewrite <- wanted_is_some.
    unfold content_from in Hc.
    destruct (wanted include partId) as [id|].
    - destruct Hc as [res [str [_ [_ ->]]]]. split; discriminate.
    - subst field. split; intros H; now elim H. }
  split; [ | split; apply G; assumption ].
  rewrite Ha.
  destruct (includes includeParts EmailParts.AttachmentsInfo);
    split; try discriminate; auto.
Qed.

(** X14: a content stream that stops without ['end'] and without
    ['error'] leaves the action pending: [streamToString] settles on
    these two events only (lines 33-36), so the run neither returns
    nor throws. *)
Theorem stalled_stream_hangs
    (fuel : nat) (mailboxPath : string) (searchObject : SearchObject)
    (includeParts : list string) (w : World)
    (u p : string) (b : bool) (content : Readable) :
  In (EvDownload u p b (inl content))
     (snd (run client fuel mailboxPath searchObject includeParts w)) ->
  streamToString content = Pending ->
  fst (run client fuel mailboxPath searchObject includeParts w) = Hangs.
Proof.
  pose proof (run_action client fuel mailboxPath searchObject includeParts w)
    as Hrun.
  apply action_cases in Hrun.
  assert (Hy : forall q new, ~ In (EvDownload u p b (inl content))
                                  (yields q new)).
  { intros q new Hin. apply in_map_iff in Hin.
    destruct Hin as [email [E _]]. discriminate. }
  destruct Hrun as [[e [-> ->]] | [[new [e [-> ->]]] | [[new [-> ->]]
                   | [emails [downloads [-> Hm]]]]]]; intros Hin Hs.
  - destruct Hin as [E | []]. discriminate.
  - destruct Hin as [E | Hin]; [ discriminate | ].
    apply in_app_or in Hin. destruct Hin as [Hin | [E | []]];
      [ now elim (Hy _ _ Hin) | discriminate ].
  - destruct Hin as [E | Hin]; [ discriminate | now elim (Hy _ _ Hin) ].
  - destruct Hin as [E | Hin]; [ discriminate | ].
    apply in_app_or in Hin.
    destruct Hin as [Hin | [E | Hin]];
      [ now elim (Hy _ _ Hin) | discriminate | ].
    apply messages_facts in Hm. destruct Hm as [_ [_ [_ [_ Hh]]]].
    exact (Hh u p b (inl content) Hin Hs).
Qed.

(** X15: when the generator ends without having yielded a message,
    the run returns the empty list and downloads nothing (the loop of
    line 168 has nothing to go over). *)
Theorem empty_fetch_returns_nothing
    (fuel : nat) (mailboxPath : string) (searchObject : SearchObject)
    (includeParts : list string) (w : World) (q : FetchQueryObject) :
  In (EvFetchNext q IterDone)
     (snd (run client fuel mailboxPath searchObject includeParts w)) ->
  fetched (snd (run client fuel mailboxPath searchObject includeParts w))
  = [] ->
  fst (run client fuel mailboxPath searchObject includeParts w) = Returned []
  /\ download_requests
       (snd (run client fuel mailboxPath searchObject includeParts w)) = [].
Proof.
  pose proof (run_action client fuel mailboxPath searchObject includeParts w)
    as Hrun.
  apply action_cases in Hrun.
  assert (Hy : forall q' new, ~ In (EvFetchNext q IterDone) (yields q' new)).
  { intros q' new Hin. apply in_map_iff in Hin.
    destruct Hin as [email [E _]]. discriminate. }
  destruct Hrun as [[e [-> ->]] | [[new [e [-> ->]]] | [[new [-> ->]]
                   | [emails [downloads [-> Hm]]]]]]; intros Hin Hf.
  - destruct Hin as [E | []]. discriminate.
  - destruct Hin as [E | Hin]; [ discriminate | ].
    apply in_app_or in Hin. destruct Hin as [Hin | [E | []]];
      [ now elim (Hy _ _ Hin) | discriminate ].
  - destruct Hin as [E | Hin]; [ discriminate | now elim (Hy _ _ Hin) ].
  - pose proof Hm as Hfacts. apply messages_facts in Hfacts.
    destruct Hfacts as [Hd _].
    rewrite (fetched_log_done _ _ _ Hd) in Hf. subst emails.
    simpl in Hm. destruct Hm as [-> ->]. split; reflexivity.
Qed.

(** X16: when a [next()] of the bulk fetch throws, the run ends with
    that error without a single download: the messages yielded before
    the failure are dropped, not processed (lines 161-164). *)
Theorem failed_fetch_downloads_nothing
    (fuel : nat) (mailboxPath : string) (searchObject : SearchObject)
    (includeParts : list string) (w : World)
    (q : FetchQueryObject) (e : Error) :
  In (EvFetchNext q (IterThrow e))
     (snd (run client fuel mailboxPath searchObject includeParts w)) ->
  fst (run client fuel mailboxPath searchObject includeParts w) = Thrown e
  /\ download_requests
       (snd (run client fuel mailboxPath searchObject includeParts w)) = [].
Proof.
  pose proof (run_action client fuel mailboxPath searchObject includeParts w)
    as Hrun.
  apply action_cases in Hrun.
  assert (Hy : forall q' new,
             ~ In (EvFetchNext q (IterThrow e)) (yields q' new)).
  { intros q' new Hin. apply in_map_iff in Hin.
    destruct Hin as [email [E _]]. discriminate. }
  destruct Hrun as [[e' [-> ->]] | [[new [e' [-> ->]]] | [[new [-> ->]]
                   | [emails [downloads [-> Hm]]]]]]; intros Hin.
  - destruct Hin as [E | []]. discriminate.
  - destruct Hin as [E | Hin]; [ discriminate | ].
    apply in_app_or in Hin. destruct Hin as [Hin | [E | []]];
      [ now elim (Hy _ _ Hin) | ].
    injection E as _ <-. split; [ reflexivity | ].
    now rewrite requests_log_yields.
  - destruct Hin as [E | Hin]; [ discriminate | now elim (Hy _ _ Hin) ].
  - destruct Hin as [E | Hin]; [ discriminate | ].
    apply in_app_or in Hin.
    destruct Hin as [Hin | [E | Hin]];
      [ now elim (Hy _ _ Hin) | discriminate | ].
    apply messages_facts in Hm. destruct Hm as [Hd _].
    rewrite Forall_forall in Hd. specialize (Hd _ Hin). discriminate.
Qed.

(** X17: a run that returns has made exactly the planned downloads,
    in order: for each record in turn, the text part of its message
    when text content is included and a text part id was found, then
    its HTML part under the same conditions, each once and by uid
    (lines 223-237). *)
Theorem downloads_of_a_returned_run
    (fuel : nat) (mailboxPath : string) (searchObject : SearchObject)
    (includeParts : list string) (w : World) (records : list OutputRecord) :
  fst (run client fuel mailboxPath searchObject includeParts w)
  = Returned records ->
  download_requests
    (snd (run client fuel mailboxPath searchObject includeParts w))
  = flat_map (requests (includes includeParts EmailParts.TextContent)
                       (includes includeParts EmailParts.HtmlContent))
      (map json records).
Proof.
  intros Hr.
  destruct (records_of_run fuel mailboxPath searchObject includeParts w Hr)
    as [-> _].
  destruct (downloads_begin_the_plan fuel mailboxPath searchObject
              includeParts w) as [rest [Hplan Hz]].
  rewrite (Hz records Hr), app_nil_r in Hplan. exact Hplan.
Qed.

End MoreOrchestrator.

(* ===================================================================== *)
(** * The further properties on concrete runs *)
(* ===================================================================== *)

Section MoreRuns.

Lemma includeParts_order_is_irrelevant_witness :
  (forall p,
      In p [EmailParts.TextContent; EmailParts.AttachmentsInfo] <->
      In p [EmailParts.AttachmentsInfo; EmailParts.TextContent;
            EmailParts.AttachmentsInfo])
  /\ run scripted 5 "INBOX" "ALL"
       [EmailParts.TextContent; EmailParts.AttachmentsInfo]
       Samples.twoMessages
     = run scripted 5 "INBOX" "ALL"
         [EmailParts.AttachmentsInfo; EmailParts.TextContent;
          EmailParts.AttachmentsInfo]
         Samples.twoMessages.
Proof.
  assert (H : forall p,
             In p [EmailParts.TextContent; EmailParts.AttachmentsInfo] <->
             In p [EmailParts.AttachmentsInfo; EmailParts.TextContent;
                   EmailParts.AttachmentsInfo])
    by (intros p; simpl; tauto).
  split; [ exact H | ].
  apply (@includeParts_order_is_irrelevant Script scripted 5 "INBOX" "ALL"
           _ _ Samples.twoMessages H).
Defined.

Lemma one_record_per_message_witness :
  fst Samples.attachmentsRun
  = Returned [Samples.bareRecord; Samples.pdfRecord]
  /\ List.length [Samples.bareRecord; Samples.pdfRecord]
     = List.length (fetched (snd Samples.attachmentsRun))
  /\ map (fun item => (uid (json item), bodyStructure (json item)))
         [Samples.bareRecord; Samples.pdfRecord]
     = map (fun email => (uid email, bodyStructure email))
         (fetched (snd Samples.attachmentsRun)).
Proof.
  split; [ reflexivity | ].
  apply (@one_record_per_message Script scripted 5 "INBOX" "ALL"
           [EmailParts.AttachmentsInfo] Samples.withAndWithout).
  reflexivity.
Defined.

Lemma downloads_address_text_parts_by_uid_witness :
  In Samples.firstDownload (snd Samples.contentRun)
  /\ true = true /\ "1" <> EmptyString
  /\ exists email,
       In email (fetched (snd Samples.contentRun))
       /\ "11" = uid_toString (uid email)
       /\ ((includes [EmailParts.TextContent; EmailParts.HtmlContent]
              EmailParts.TextContent = true
            /\ textPartId (analyze true (bodyStructure email)) = Some "1")
           \/ (includes [EmailParts.TextContent; EmailParts.HtmlContent]
                 EmailParts.HtmlContent = true
               /\ htmlPartId (analyze true (bodyStructure email)) = Some "1")).
Proof.
  assert (H : In Samples.firstDownload (snd Samples.contentRun))
    by (apply (@nth_error_In _ _ 4); reflexivity).
  split; [ exact H | ].
  apply (@downloads_address_text_parts_by_uid Script scripted 5 "INBOX" "ALL"
           [EmailParts.TextContent; EmailParts.HtmlContent]
           Samples.twoMessages "11" "1" true (inl Samples.okStream) H).
Defined.

Lemma content_comes_from_download_witness :
  fst Samples.contentRun
  = Returned [MoreSamples.contentRecord1; MoreSamples.contentRecord2]
  /\ out_textContent MoreSamples.contentRecord2 = Some [72; 105]%N
  /\ exists id content,
       textPartId (analyze true
                     (bodyStructure (json MoreSamples.contentRecord2)))
       = Some id
       /\ In (EvDownload
                (uid_toString (uid (json MoreSamples.contentRecord2)))
                id true (inl content))
             (snd Samples.contentRun)
       /\ streamToString content = Resolved [72; 105]%N.
Proof.
  split; [ reflexivity | ]. split; [ reflexivity | ].
  apply (proj1 (@content_comes_from_download Script scripted 5 "INBOX" "ALL"
                  [EmailParts.TextContent; EmailParts.HtmlContent]
                  Samples.twoMessages
                  [MoreSamples.contentRecord1; MoreSamples.contentRecord2]
                  MoreSamples.contentRecord2 eq_refl
                  (or_intror (or_introl eq_refl)))).
  reflexivity.
Defined.

Lemma derived_fields_present_exactly_when_due_witness :
  fst Samples.contentRun
  = Returned [MoreSamples.contentRecord1; MoreSamples.contentRecord2]
  /\ (out_htmlContent MoreSamples.contentRecord2 <> None <->
        includes [EmailParts.TextContent; EmailParts.HtmlContent]
          EmailParts.HtmlContent = true
        /\ truthy (htmlPartId
                     (analyze true
                        (bodyStructure (json MoreSamples.contentRecord2))))
           = true).
Proof.
  split; [ reflexivity | ].
  apply (@derived_fields_present_exactly_when_due Script scripted 5
           "INBOX" "ALL" [EmailParts.TextContent; EmailParts.HtmlContent]
           Samples.twoMessages
           [MoreSamples.contentRecord1; MoreSamples.contentRecord2]
           MoreSamples.contentRecord2 eq_refl
           (or_intror (or_introl eq_refl))).
Defined.

Lemma stalled_stream_hangs_witness :
  In (EvDownload "31" "TEXT" true (inl MoreSamples.stalled))
     (snd MoreSamples.stallingRun)
  /\ streamToString MoreSamples.stalled = Pending
  /\ fst MoreSamples.stallingRun = Hangs.
Proof.
  assert (H : In (EvDownload "31" "TEXT" true (inl MoreSamples.stalled))
                 (snd MoreSamples.stallingRun))
    by (apply (@nth_error_In _ _ 3); reflexivity).
  split; [ exact H | ]. split; [ reflexivity | ].
  apply (@stalled_stream_hangs Script scripted 5 "INBOX" "ALL"
           [EmailParts.TextContent] MoreSamples.stallingScript
           "31" "TEXT" true MoreSamples.stalled H).
  reflexivity.
Defined.

Lemma empty_fetch_returns_nothing_witness :
  fetched (snd MoreSamples.emptyRun) = []
  /\ fst MoreSamples.emptyRun = Returned []
  /\ download_requests (snd MoreSamples.emptyRun) = [].
Proof.
  split; [ reflexivity | ].
  apply (@empty_fetch_returns_nothing Script scripted 3 "INBOX" "ALL"
           [EmailParts.TextContent; EmailParts.AttachmentsInfo]
           {| sc_fetch := []; sc_downloads := [] |}
           (buildFetchQuery [EmailParts.TextContent;
                             EmailParts.AttachmentsInfo])).
  - right. left. reflexivity.
  - reflexivity.
Defined.

Lemma failed_fetch_downloads_nothing_witness :
  fetched (snd MoreSamples.brokenRun) = [Samples.message 41 Samples.mixed]
  /\ fst MoreSamples.brokenRun = Thrown "EPIPE"
  /\ download_requests (snd MoreSamples.brokenRun) = [].
Proof.
  split; [ reflexivity | ].
  apply (@failed_fetch_downloads_nothing Script scripted 5 "INBOX" "ALL"
           [EmailParts.TextContent] MoreSamples.brokenFetch
           (buildFetchQuery [EmailParts.TextContent]) "EPIPE").
  right. right. left. reflexivity.
Defined.

Lemma downloads_of_a_returned_run_witness :
  fst Samples.contentRun
  = Returned [MoreSamples.contentRecord1; MoreSamples.contentRecord2]
  /\ download_requests (snd Samples.contentRun)
     = [("11", "1", true); ("11", "2", true); ("12", "TEXT", true)].
Proof.
  split; [ reflexivity | ].
  apply (eq_trans
           (@downloads_of_a_returned_run Script scripted 5 "INBOX" "ALL"
              [EmailParts.TextContent; EmailParts.HtmlContent]
              Samples.twoMessages
              [MoreSamples.contentRecord1; MoreSamples.contentRecord2]
              eq_refl)).
  reflexivity.
Defined.

(** A rejected opening of the mailbox: one call, and the error. *)
Example locked_mailbox :
  run MoreSamples.lockedClient 5 "Archive" "ALL" [EmailParts.TextContent]
    Samples.twoMessages
  = (Thrown "NONEXISTENT",
     [EvMailboxOpen "Archive" true (Some "NONEXISTENT")]).
Proof. reflexivity. Qed.

End MoreRuns.
